(** * plugin/forward/setup.go: the configuration front end of the forwarder

    A shallow embedding of [setup], [parseForward], [parseStanza] and
    [parseBlock], together with the library calls they make (caddy's
    token dispenser, [strconv.Atoi], [bytes.Index], [bytes.Fields],
    [strings.Split]), followed by the properties of the configuration
    they accept. *)

From Stdlib Require Import ZArith String Ascii List Bool Lia.
From Stdlib.Strings Require Import Byte.
From stdpp Require Import base option list strings gmap.

Open Scope string_scope.
Open Scope list_scope.
Open Scope Z_scope.

(** ** Go library functions used by the parser *)

Module Go.

(** A byte as the integer Go sees. *)
Definition byteZ (b : byte) : Z := Z.of_N (Byte.to_N b).

(** [string(b)] and [[]byte(s)]: both hold the same bytes. *)
Definition bytes_to_string (l : list byte) : string := string_of_list_byte l.
Definition string_to_bytes (s : string) : list byte := list_byte_of_string s.

(** *** strconv.Atoi

    [intSize] is [strconv.IntSize], the width of [int] on the platform
    (32 or 64). The result is the decimal value of an optionally signed
    digit string when it fits an [int]; everything else is a
    [*strconv.NumError]. *)

Definition digitVal (c : ascii) : option Z :=
  let n := Z.of_N (N_of_ascii c) in
  if (48 <=? n) && (n <=? 57) then Some (n - 48) else None.

Fixpoint digits (s : string) (acc : Z) : option Z :=
  match s with
  | EmptyString => Some acc
  | String c s' =>
      match digitVal c with
      | Some v => digits s' (acc * 10 + v)
      | None => None
      end
  end.

Definition minInt (intSize : Z) : Z := - 2 ^ (intSize - 1).
Definition maxInt (intSize : Z) : Z := 2 ^ (intSize - 1) - 1.

(** The sign is split off first; a sign with nothing behind it, an empty
    string or a character that is no digit is a syntax error, a value
    outside [int] a range error. Both come back as [None]. *)
Definition Atoi (intSize : Z) (s : string) : option Z :=
  match s with
  | EmptyString => None
  | String c r =>
      let '(neg, body) :=
        if Ascii.eqb c "-" then (true, r)
        else if Ascii.eqb c "+" then (false, r)
        else (false, s) in
      match body with
      | EmptyString => None
      | _ =>
          match digits body 0 with
          | None => None
          | Some un =>
              let n := if neg then - un else un in
              if (minInt intSize <=? n) && (n <=? maxInt intSize)
              then Some n else None
          end
      end
  end.

(** *** Fixed-width conversions *)

Definition uint32 (n : Z) : Z := n mod 2 ^ 32.

(** [int64(n)]: two's complement wrap-around to 64 bits. *)
Definition int64 (n : Z) : Z := (n + 2 ^ 63) mod 2 ^ 64 - 2 ^ 63.

(** *** bytes.Index *)

Fixpoint hasPrefix (s sep : list byte) {struct sep} : bool :=
  match sep, s with
  | [], _ => true
  | _ :: _, [] => false
  | x :: sep', y :: s' => Byte.eqb x y && hasPrefix s' sep'
  end.

(** Index of the first instance of [sep] in [s], or -1. *)
Fixpoint Index (s sep : list byte) : Z :=
  if hasPrefix s sep then 0
  else match s with
       | [] => -1
       | _ :: s' => let i := Index s' sep in if i <? 0 then -1 else i + 1
       end.

(** The slice expression [s[0:i]]. *)
Definition slice_to (s : list byte) (i : Z) : list byte := take (Z.to_nat i) s.

(** *** unicode/utf8.DecodeRune and unicode.IsSpace *)

Definition RuneError : Z := 65533.

Definition inRange (lo hi : Z) (b : byte) : bool :=
  (lo <=? byteZ b) && (byteZ b <=? hi).

Definition cont (b : byte) : Z := Z.land (byteZ b) 63.

(** The rune at the head of [p] and its width in bytes; an invalid or
    short encoding is [RuneError] of width 1. *)
Definition DecodeRune (p : list byte) : Z * nat :=
  match p with
  | [] => (RuneError, 0%nat)
  | b0 :: t =>
      let p0 := byteZ b0 in
      if p0 <? 128 then (p0, 1%nat)
      else if (p0 <? 194) || (244 <? p0) then (RuneError, 1%nat)
      else if p0 <? 224 then
        match t with
        | b1 :: _ =>
            if inRange 128 191 b1
            then (Z.lor (Z.shiftl (Z.land p0 31) 6) (cont b1), 2%nat)
            else (RuneError, 1%nat)
        | _ => (RuneError, 1%nat)
        end
      else if p0 <? 240 then
        let lo := if p0 =? 224 then 160 else 128 in
        let hi := if p0 =? 237 then 159 else 191 in
        match t with
        | b1 :: b2 :: _ =>
            if inRange lo hi b1 && inRange 128 191 b2
            then (Z.lor (Z.shiftl (Z.land p0 15) 12)
                    (Z.lor (Z.shiftl (cont b1) 6) (cont b2)), 3%nat)
            else (RuneError, 1%nat)
        | _ => (RuneError, 1%nat)
        end
      else
        let lo := if p0 =? 240 then 144 else 128 in
        let hi := if p0 =? 244 then 143 else 191 in
        match t with
        | b1 :: b2 :: b3 :: _ =>
            if inRange lo hi b1 && inRange 128 191 b2 && inRange 128 191 b3
            then (Z.lor (Z.shiftl (Z.land p0 7) 18)
                    (Z.lor (Z.shiftl (cont b1) 12)
                       (Z.lor (Z.shiftl (cont b2) 6) (cont b3))), 4%nat)
            else (RuneError, 1%nat)
        | _ => (RuneError, 1%nat)
        end
  end.

(** White space as Unicode's White_Space property has it. *)
Definition IsSpace (r : Z) : bool :=
  if r <=? 255 then
    ((9 <=? r) && (r <=? 13)) || (r =? 32) || (r =? 133) || (r =? 160)
  else
    (r =? 5760) || ((8192 <=? r) && (r <=? 8202)) || (r =? 8232)
    || (r =? 8233) || (r =? 8239) || (r =? 8287) || (r =? 12288).

(** *** bytes.Fields

    [skip] counts the bytes of the current rune still to pass, [cur] is
    the field being read, if any. *)
Definition close (cur : option (list byte)) : list (list byte) :=
  match cur with
  | Some fld => [fld]
  | None => []
  end.

Fixpoint fieldsFrom (s : list byte) (skip : nat) (cur : option (list byte))
  : list (list byte) :=
  match s with
  | [] => close cur
  | b :: t =>
      match skip with
      | S k => fieldsFrom t k ((fun fld => fld ++ [b]) <$> cur)
      | O =>
          let '(r, size) := DecodeRune s in
          if IsSpace r
          then close cur ++ fieldsFrom t (size - 1) None
          else fieldsFrom t (size - 1) (Some (default [] cur ++ [b]))
      end
  end.

Definition Fields (s : list byte) : list (list byte) := fieldsFrom s 0 None.

(** *** strings.Split with a separator of one byte *)

Fixpoint splitFrom (s : string) (sep : ascii) (cur : string) : list string :=
  match s with
  | EmptyString => [cur]
  | String c s' =>
      if Ascii.eqb c sep
      then cur :: splitFrom s' sep EmptyString
      else splitFrom s' sep (cur +:+ String c EmptyString)
  end.

Definition Split (s : string) (sep : ascii) : list string :=
  splitFrom s sep EmptyString.

(** How often the byte [c] occurs in [s] (as [strings.Count] counts a
    separator of one byte). *)
Fixpoint occurrences (c : ascii) (s : string) : nat :=
  match s with
  | EmptyString => O
  | String x s' => ((if Ascii.eqb x c then 1 else 0) + occurrences c s')%nat
  end.

End Go.

(** ** Errors

    Go's [error] values, kept structured: the constructor says where the
    error was made, a format string comes with its arguments. *)

Inductive fmtArg :=
| ArgS (s : string)
| ArgZ (n : Z).

Inductive error :=
| ParseError (file : string) (line : Z) (format : string) (args : list fmtArg)
    (* Dispenser.Err and Dispenser.Errf *)
| Errorf (format : string) (args : list fmtArg)      (* fmt.Errorf *)
| ErrorsNew (text : string)                          (* errors.New *)
| NumError (fn : string) (s : string)                (* strconv *)
| External (text : string)         (* os, time, tls and the host parser *)
| PluginError (name : string) (e : error).           (* plugin.Error *)

Inductive result (A : Type) :=
| Ok (a : A)
| Err (e : error).
Arguments Ok {A} a.
Arguments Err {A} e.

(** ** caddy's token dispenser (caddyfile.Dispenser)

    The controller that [setup] receives embeds the dispenser of caddy 1
    (go.mod requires caddy v1.0.1): the tokens of the directive, a
    cursor into them and the depth of the block being read. *)

Module Caddy.

Record Token := mkToken { File : string; Line : Z; Text : string }.

Record Dispenser := mkDispenser {
  filename : string;
  tokens : list Token;
  cursor : Z;
  nesting : Z
}.

Definition len (d : Dispenser) : Z := Z.of_nat (length (tokens d)).

Definition tokenAt (d : Dispenser) (i : Z) : option Token :=
  if i <? 0 then None else tokens d !! Z.to_nat i.

Definition moveTo (d : Dispenser) (i : Z) : Dispenser :=
  mkDispenser (filename d) (tokens d) i (nesting d).

Definition nest (d : Dispenser) (n : Z) : Dispenser :=
  mkDispenser (filename d) (tokens d) (cursor d) n.

(** [Next] loads the next token, whatever line it is on. *)
Definition Next (d : Dispenser) : bool * Dispenser :=
  if cursor d <? len d - 1 then (true, moveTo d (cursor d + 1)) else (false, d).

(** [Val] is the text of the current token, empty outside the tokens. *)
Definition Val (d : Dispenser) : string :=
  match tokenAt d (cursor d) with
  | Some t => Text t
  | None => ""
  end.

(** [strings.Count(text, "\n")] *)
Fixpoint countNL (s : string) : Z :=
  match s with
  | EmptyString => 0
  | String c s' => (if Ascii.eqb c "010" then 1 else 0) + countNL s'
  end.

Definition numLineBreaks (d : Dispenser) (i : Z) : Z :=
  match tokenAt d i with
  | Some t => countNL (Text t)
  | None => 0
  end.

Definition sameLine (d : Dispenser) : bool :=
  match tokenAt d (cursor d), tokenAt d (cursor d + 1) with
  | Some a, Some b =>
      String.eqb (File a) (File b)
      && (Line a + numLineBreaks d (cursor d) =? Line b)
  | _, _ => false
  end.

(** [NextArg] loads the next token only if it is on the line of the
    current one. *)
Definition NextArg (d : Dispenser) : bool * Dispenser :=
  if cursor d <? 0 then (true, moveTo d (cursor d + 1))
  else if len d <=? cursor d then (false, d)
  else if (cursor d <? len d - 1) && sameLine d
       then (true, moveTo d (cursor d + 1))
       else (false, d).

(** [NextBlock] opens a block at a brace on the current line, and then
    steps through it until the closing brace. *)
Definition NextBlock (d : Dispenser) : bool * Dispenser :=
  if 0 <? nesting d then
    let d1 := snd (Next d) in
    if String.eqb (Val d1) "}" then (false, nest d1 (nesting d1 - 1))
    else (true, d1)
  else
    let '(ok, d1) := NextArg d in
    if negb ok then (false, d1)
    else if negb (String.eqb (Val d1) "{") then (false, moveTo d1 (cursor d1 - 1))
    else
      let d2 := snd (Next d1) in
      if String.eqb (Val d2) "}" then (false, d2)
      else (true, nest d2 (nesting d2 + 1)).

(** A bound on the number of times [NextArg] can succeed from [d]. *)
Definition argFuel (d : Dispenser) : nat := Z.to_nat (len d - cursor d).

(** [RemainingArgs]: the rest of the line, up to an opening brace, which
    is neither returned nor loaded. *)
Fixpoint remainingArgs (fuel : nat) (d : Dispenser) (args : list string)
  : list string * Dispenser :=
  match fuel with
  | O => (args, d)
  | S k =>
      let '(ok, d1) := NextArg d in
      if ok then
        if String.eqb (Val d1) "{" then (args, moveTo d1 (cursor d1 - 1))
        else remainingArgs k d1 (args ++ [Val d1])
      else (args, d1)
  end.

Definition RemainingArgs (d : Dispenser) : list string * Dispenser :=
  remainingArgs (argFuel d) d [].

(** [Args(&t1, ..., &tn)]: the values assigned to the first targets, and
    whether there were enough of them. *)
Fixpoint Args (n : nat) (d : Dispenser) : bool * list string * Dispenser :=
  match n with
  | O => (true, [], d)
  | S k =>
      let '(ok, d1) := NextArg d in
      if negb ok then (false, [], d1)
      else let '(enough, vals, d2) := Args k d1 in (enough, Val d1 :: vals, d2)
  end.

Definition file (d : Dispenser) : string :=
  match tokenAt d (cursor d) with
  | Some t => if String.eqb (File t) "" then filename d else File t
  | None => filename d
  end.

Definition line (d : Dispenser) : Z :=
  match tokenAt d (cursor d) with
  | Some t => Line t
  | None => 0
  end.

Definition Errf (d : Dispenser) (format : string) (args : list fmtArg) : error :=
  ParseError (file d) (line d) format args.

Definition ArgErr (d : Dispenser) : error :=
  if String.eqb (Val d) "{"
  then Errf d "Unexpected token '{', expecting argument" []
  else Errf d "Wrong argument count or unexpected line ending after '%s'"
         [ArgS (Val d)].

End Caddy.

Import Go Caddy.

(** ** The forwarder's configuration *)

(** Modelled from the spec: policy.go is not among the sources. The
    selection policy of an engine is one of random, round-robin and
    sequential. *)
Inductive Policy := random | roundRobin | sequential.

(** Modelled from the spec: the [options] of forward.go are not among
    the sources. They hold the transport preferences force-TCP and
    prefer-UDP-first and the recursion-desired flag of the probes. *)
Record options := mkOptions {
  forceTCP : bool;
  preferUDP : bool;
  hcRecursionDesired : bool
}.

(** [tls.Config]: the server name, and the key material as loaded. *)
Record TLSConfig := mkTLSConfig { ServerName : string; material : list string }.

Inductive ProxyCall :=
| SetTLSConfig (cfg : TLSConfig)
| SetExpire (expire : Z)
| SetRecursionDesired (rd : bool).

(** Modelled from the spec: proxy.go is not among the sources. An
    upstream target is created from an address and a transport kind at
    configuration time; what the setters do to it is not needed here, so
    a proxy is the pair given to [NewProxy] and the setter calls made on
    it, oldest first. *)
Record Proxy := mkProxy {
  addr : string;
  trans : string;
  calls : list ProxyCall
}.

Definition NewProxy (addr trans : string) : Proxy := mkProxy addr trans [].

Definition call (px : Proxy) (c : ProxyCall) : Proxy :=
  mkProxy (addr px) (trans px) (calls px ++ [c]).

(** Modelled from the spec: the struct [Forward] of forward.go is not
    among the sources. These are the fields of the engine configuration
    that setup.go reads or writes, under the names it uses. Durations
    are [time.Duration], nanoseconds in an int64; [maxfails] is a
    uint32, [maxConcurrent] an int64, [maxFailedTries] an int. *)
Record Forward := mkForward {
  proxies : list Proxy;
  p : Policy;
  hcInterval : Z;
  from : string;
  ignored : list string;
  tlsConfig : TLSConfig;
  tlsServerName : string;
  maxfails : Z;
  expire : Z;
  maxConcurrent : Z;
  maxFailedTries : Z;
  opts : options;
  ErrLimitExceeded : option error;
  index : Z
}.

Definition set_proxies (f : Forward) (v : list Proxy) : Forward :=
  mkForward v (p f) (hcInterval f) (from f) (ignored f) (tlsConfig f)
    (tlsServerName f) (maxfails f) (expire f) (maxConcurrent f)
    (maxFailedTries f) (opts f) (ErrLimitExceeded f) (index f).
Definition set_p (f : Forward) (v : Policy) : Forward :=
  mkForward (proxies f) v (hcInterval f) (from f) (ignored f) (tlsConfig f)
    (tlsServerName f) (maxfails f) (expire f) (maxConcurrent f)
    (maxFailedTries f) (opts f) (ErrLimitExceeded f) (index f).
Definition set_hcInterval (f : Forward) (v : Z) : Forward :=
  mkForward (proxies f) (p f) v (from f) (ignored f) (tlsConfig f)
    (tlsServerName f) (maxfails f) (expire f) (maxConcurrent f)
    (maxFailedTries f) (opts f) (ErrLimitExceeded f) (index f).
Definition set_from (f : Forward) (v : string) : Forward :=
  mkForward (proxies f) (p f) (hcInterval f) v (ignored f) (tlsConfig f)
    (tlsServerName f) (maxfails f) (expire f) (maxConcurrent f)
    (maxFailedTries f) (opts f) (ErrLimitExceeded f) (index f).
Definition set_ignored (f : Forward) (v : list string) : Forward :=
  mkForward (proxies f) (p f) (hcInterval f) (from f) v (tlsConfig f)
    (tlsServerName f) (maxfails f) (expire f) (maxConcurrent f)
    (maxFailedTries f) (opts f) (ErrLimitExceeded f) (index f).
Definition set_tlsConfig (f : Forward) (v : TLSConfig) : Forward :=
  mkForward (proxies f) (p f) (hcInterval f) (from f) (ignored f) v
    (tlsServerName f) (maxfails f) (expire f) (maxConcurrent f)
    (maxFailedTries f) (opts f) (ErrLimitExceeded f) (index f).
Definition set_tlsServerName (f : Forward) (v : string) : Forward :=
  mkForward (proxies f) (p f) (hcInterval f) (from f) (ignored f) (tlsConfig f)
    v (maxfails f) (expire f) (maxConcurrent f)
    (maxFailedTries f) (opts f) (ErrLimitExceeded f) (index f).
Definition set_maxfails (f : Forward) (v : Z) : Forward :=
  mkForward (proxies f) (p f) (hcInterval f) (from f) (ignored f) (tlsConfig f)
    (tlsServerName f) v (expire f) (maxConcurrent f)
    (maxFailedTries f) (opts f) (ErrLimitExceeded f) (index f).
Definition set_expire (f : Forward) (v : Z) : Forward :=
  mkForward (proxies f) (p f) (hcInterval f) (from f) (ignored f) (tlsConfig f)
    (tlsServerName f) (maxfails f) v (maxConcurrent f)
    (maxFailedTries f) (opts f) (ErrLimitExceeded f) (index f).
Definition set_maxConcurrent (f : Forward) (v : Z) : Forward :=
  mkForward (proxies f) (p f) (hcInterval f) (from f) (ignored f) (tlsConfig f)
    (tlsServerName f) (maxfails f) (expire f) v
    (maxFailedTries f) (opts f) (ErrLimitExceeded f) (index f).
Definition set_maxFailedTries (f : Forward) (v : Z) : Forward :=
  mkForward (proxies f) (p f) (hcInterval f) (from f) (ignored f) (tlsConfig f)
    (tlsServerName f) (maxfails f) (expire f) (maxConcurrent f)
    v (opts f) (ErrLimitExceeded f) (index f).
Definition set_opts (f : Forward) (v : options) : Forward :=
  mkForward (proxies f) (p f) (hcInterval f) (from f) (ignored f) (tlsConfig f)
    (tlsServerName f) (maxfails f) (expire f) (maxConcurrent f)
    (maxFailedTries f) v (ErrLimitExceeded f) (index f).
Definition set_ErrLimitExceeded (f : Forward) (v : option error) : Forward :=
  mkForward (proxies f) (p f) (hcInterval f) (from f) (ignored f) (tlsConfig f)
    (tlsServerName f) (maxfails f) (expire f) (maxConcurrent f)
    (maxFailedTries f) (opts f) v (index f).
Definition set_index (f : Forward) (v : Z) : Forward :=
  mkForward (proxies f) (p f) (hcInterval f) (from f) (ignored f) (tlsConfig f)
    (tlsServerName f) (maxfails f) (expire f) (maxConcurrent f)
    (maxFailedTries f) (opts f) (ErrLimitExceeded f) v.

Definition set_forceTCP (o : options) (v : bool) : options :=
  mkOptions v (preferUDP o) (hcRecursionDesired o).
Definition set_preferUDP (o : options) (v : bool) : options :=
  mkOptions (forceTCP o) v (hcRecursionDesired o).
Definition set_hcRecursionDesired (o : options) (v : bool) : options :=
  mkOptions (forceTCP o) (preferUDP o) v.

Definition set_ServerName (c : TLSConfig) (v : string) : TLSConfig :=
  mkTLSConfig v (material c).

(** Modelled from the spec: forward.go is not among the sources; [Len]
    is the number of configured upstream targets. *)
Definition Len (f : Forward) : Z := Z.of_nat (length (proxies f)).

(** What setup.go takes from the rest of the repository and from the
    platform. *)
Record World := mkWorld {
  (** plugin.Host(s).Normalize() *)
  Normalize : string -> string;
  (** parse.HostPortOrFile(to...) *)
  HostPortOrFile : list string -> result (list string);
  (** parse.Transport(host): the transport and the bare address *)
  Transport : string -> string * string;
  (** the constant transport.TLS *)
  TLS : string;
  (** time.ParseDuration *)
  ParseDuration : string -> result Z;
  (** pkgtls.NewTLSConfigFromArgs(args...) *)
  NewTLSConfigFromArgs : list string -> result TLSConfig;
  (** os.Open followed by a bufio.Scanner: the lines it delivers *)
  Open : string -> result (list (list byte));
  (** New(): a Forward with its defaults *)
  New : Forward;
  (** strconv.IntSize *)
  intSize : Z
}.

(** The controller: the dispenser and what has been registered with the
    server so far. A registered closure is identified with the [Forward]
    it captures. *)
Record Controller := mkController {
  disp : Dispenser;
  plugins : list Forward;
  onStartup : list Forward;
  onShutdown : list Forward
}.

(** ** setup.go *)

(** Maximum number of upstreams. *)
Definition max : Z := 15.

(** [allowedTrans] of [parseStanza]; a key that is absent reads as false. *)
Definition allowedTrans : gmap string bool :=
  <["dns" := true]> (<["tls" := true]> ∅).

Definition allowed (trans : string) : bool := default false (allowedTrans !! trans).

Section Setup.

Context (W : World).

Definition atoi (s : string) : result Z :=
  match Atoi (intSize W) s with
  | Some n => Ok n
  | None => Err (NumError "Atoi" s)
  end.

(** [f.ignored = append(f.ignored, plugin.Host(name).Normalize())] *)
Definition ignore (f : Forward) (name : string) : Forward :=
  set_ignored f (ignored f ++ [Normalize W name]).

(** The character that starts a comment. *)
Definition hash : byte := x23.

(** One turn of the scanner loop of [except_file]. *)
Definition scanLine (f : Forward) (line : list byte) : Forward :=
  let i := Index line [hash] in
  let line := if 0 <=? i then slice_to line i else line in
  match Fields line with
  | [field] =>
      match Split (bytes_to_string field) "/" with
      | [domain] => ignore f domain
      | [_; domain; _] => ignore f domain
      | _ => f
      end
  | _ => f
  end.

(** The options that may follow the interval of [health_check]. *)
Fixpoint hcOptions (fuel : nat) (d : Dispenser) (f : Forward)
  : Dispenser * Forward * option error :=
  match fuel with
  | O => (d, f, None)
  | S k =>
      let '(ok, d1) := NextArg d in
      if ok then
        if String.eqb (Val d1) "no_rec"
        then hcOptions k d1 (set_opts f (set_hcRecursionDesired (opts f) false))
        else (d1, f, Some (Errorf "health_check: unknown option %s" [ArgS (Val d1)]))
      else (d1, f, None)
  end.

(** [parseBlock] handles one property of the block; the dispenser stands
    on the property's name. The [Forward] comes back as the call left it,
    also when there is an error. *)
Definition parseBlock (d : Dispenser) (f : Forward)
  : Dispenser * Forward * option error :=
  let v := Val d in
  if String.eqb v "except" then
    let '(names, d1) := RemainingArgs d in
    if (length names =? 0)%nat then (d1, f, Some (ArgErr d1))
    else (d1, fold_left ignore names f, None)
  else if String.eqb v "except_file" then
    let '(args, d1) := RemainingArgs d in
    match args with
    | [name] =>
        match Open W name with
        | Err e => (d1, f, Some e)
        | Ok lines => (d1, fold_left scanLine lines f, None)
        end
    | _ => (d1, f, Some (ArgErr d1))
    end
  else if String.eqb v "max_fails" then
    let '(ok, d1) := NextArg d in
    if negb ok then (d1, f, Some (ArgErr d1))
    else match atoi (Val d1) with
         | Err e => (d1, f, Some e)
         | Ok n =>
             if n <? 0
             then (d1, f, Some (Errorf "max_fails can't be negative: %d" [ArgZ n]))
             else (d1, set_maxfails f (uint32 n), None)
         end
  else if String.eqb v "health_check" then
    let '(ok, d1) := NextArg d in
    if negb ok then (d1, f, Some (ArgErr d1))
    else match ParseDuration W (Val d1) with
         | Err e => (d1, f, Some e)
         | Ok dur =>
             if dur <? 0
             then (d1, f, Some (Errorf "health_check can't be negative: %d" [ArgZ dur]))
             else hcOptions (argFuel d1) d1 (set_hcInterval f dur)
         end
  else if String.eqb v "force_tcp" then
    let '(ok, d1) := NextArg d in
    if ok then (d1, f, Some (ArgErr d1))
    else (d1, set_opts f (set_forceTCP (opts f) true), None)
  else if String.eqb v "prefer_udp" then
    let '(ok, d1) := NextArg d in
    if ok then (d1, f, Some (ArgErr d1))
    else (d1, set_opts f (set_preferUDP (opts f) true), None)
  else if String.eqb v "tls" then
    let '(args, d1) := RemainingArgs d in
    if (3 <? length args)%nat then (d1, f, Some (ArgErr d1))
    else match NewTLSConfigFromArgs W args with
         | Err e => (d1, f, Some e)
         | Ok cfg => (d1, set_tlsConfig f cfg, None)
         end
  else if String.eqb v "tls_servername" then
    let '(ok, d1) := NextArg d in
    if negb ok then (d1, f, Some (ArgErr d1))
    else (d1, set_tlsServerName f (Val d1), None)
  else if String.eqb v "expire" then
    let '(ok, d1) := NextArg d in
    if negb ok then (d1, f, Some (ArgErr d1))
    else match ParseDuration W (Val d1) with
         | Err e => (d1, f, Some e)
         | Ok dur =>
             if dur <? 0
             then (d1, f, Some (Errorf "expire can't be negative: %s" [ArgZ dur]))
             else (d1, set_expire f dur, None)
         end
  else if String.eqb v "policy" then
    let '(ok, d1) := NextArg d in
    if negb ok then (d1, f, Some (ArgErr d1))
    else
      let x := Val d1 in
      if String.eqb x "random" then (d1, set_p f random, None)
      else if String.eqb x "round_robin" then (d1, set_p f roundRobin, None)
      else if String.eqb x "sequential" then (d1, set_p f sequential, None)
      else (d1, f, Some (Errf d1 "unknown policy '%s'" [ArgS x]))
  else if String.eqb v "max_concurrent" then
    let '(ok, d1) := NextArg d in
    if negb ok then (d1, f, Some (ArgErr d1))
    else match atoi (Val d1) with
         | Err e => (d1, f, Some e)
         | Ok n =>
             if n <? 0
             then (d1, f, Some (Errorf "max_concurrent can't be negative: %d" [ArgZ n]))
             else
               let f1 := set_ErrLimitExceeded f
                 (Some (ErrorsNew ("concurrent queries exceeded maximum " +:+ Val d1))) in
               (d1, set_maxConcurrent f1 (int64 n), None)
         end
  else if String.eqb v "retry_failed" then
    let '(ok, d1) := NextArg d in
    if negb ok then (d1, f, Some (ArgErr d1))
    else match atoi (Val d1) with
         | Err e => (d1, f, Some e)
         | Ok n =>
             if n <? 0
             then (d1, f, Some (Errorf "retry_failed can't be negative: %d" [ArgZ n]))
             else if Z.of_nat (length (proxies f)) <? n
             then (d1, f, Some (Errorf
                    "retry_failed can't be larger than number of proxies(%d)"
                    [ArgZ (Z.of_nat (length (proxies f)))]))
             else (d1, set_maxFailedTries f n, None)
         end
  else (d, f, Some (Errf d "unknown property '%s'" [ArgS (Val d)])).

(** The loop over the destinations in [parseStanza]: [i] is the index of
    the head of [hosts] in [toHosts]. *)
Fixpoint addProxies (hosts : list string) (i : nat) (f : Forward)
    (transports : list string) : Forward * list string * option error :=
  match hosts with
  | [] => (f, transports, None)
  | host :: rest =>
      let '(tr, h) := Transport W host in
      if negb (allowed tr)
      then (f, transports,
            Some (Errorf "'%s' is not supported as a destination protocol in forward: %s"
                    [ArgS tr; ArgS host]))
      else addProxies rest (S i)
             (set_proxies f (proxies f ++ [NewProxy h tr]))
             (<[i := tr]> transports)
  end.

(** [for c.NextBlock() { parseBlock }]. A block that is never closed
    keeps this loop going for ever: [None] is the loop still running
    when the fuel is spent. *)
Fixpoint blocks (fuel : nat) (d : Dispenser) (f : Forward)
  : option (Dispenser * Forward * option error) :=
  match fuel with
  | O => None
  | S k =>
      let '(ok, d1) := NextBlock d in
      if ok then
        match parseBlock d1 f with
        | (d2, f2, Some e) => Some (d2, f2, Some e)
        | (d2, f2, None) => blocks k d2 f2
        end
      else Some (d1, f, None)
  end.

(** The last loop of [parseStanza], over the indices of [f.proxies].
    [transports[i]] outside the slice is a run-time panic: [None]. *)
Fixpoint finish (idx : list nat) (transports : list string) (f : Forward)
  : option Forward :=
  match idx with
  | [] => Some f
  | i :: rest =>
      match transports !! i, proxies f !! i with
      | Some tr, Some px =>
          let px1 := if String.eqb tr (TLS W)
                     then call px (SetTLSConfig (tlsConfig f)) else px in
          let px2 := call px1 (SetExpire (expire f)) in
          let px3 := call px2 (SetRecursionDesired (hcRecursionDesired (opts f))) in
          finish rest transports (set_proxies f (<[i := px3]> (proxies f)))
      | _, _ => None
      end
  end.

Definition parseStanza (fuel : nat) (d : Dispenser)
  : option (Dispenser * Forward * option error) :=
  let f := New W in
  let '(ok, vals, d1) := Args 1 d in
  let f1 := match vals with
            | v :: _ => set_from f v
            | [] => f
            end in
  if negb ok then Some (d1, f1, Some (ArgErr d1))
  else
    let f2 := set_from f1 (Normalize W (from f1)) in
    let '(to, d2) := RemainingArgs d1 in
    if (length to =? 0)%nat then Some (d2, f2, Some (ArgErr d2))
    else
      match HostPortOrFile W to with
      | Err e => Some (d2, f2, Some e)
      | Ok toHosts =>
          match addProxies toHosts 0 f2 (replicate (length toHosts) "") with
          | (f3, _, Some e) => Some (d2, f3, Some e)
          | (f3, transports, None) =>
              match blocks fuel d2 f3 with
              | None => None
              | Some (d3, f4, Some e) => Some (d3, f4, Some e)
              | Some (d3, f4, None) =>
                  let f5 := if negb (String.eqb (tlsServerName f4) "")
                            then set_tlsConfig f4
                                   (set_ServerName (tlsConfig f4) (tlsServerName f4))
                            else f4 in
                  match finish (seq 0 (length (proxies f5))) transports f5 with
                  | None => None
                  | Some f6 => Some (d3, f6, None)
                  end
              end
          end
      end.

(** [for c.Next() { parseStanza }], [i] counting the stanzas. One unit of
    fuel is spent per stanza. *)
Fixpoint stanzas (fuel k : nat) (d : Dispenser) (fs : list Forward) (i : Z)
  : option (Dispenser * result (list Forward)) :=
  match k with
  | O => None
  | S k' =>
      let '(ok, d1) := Next d in
      if ok then
        match parseStanza fuel d1 with
        | None => None
        | Some (d2, _, Some e) => Some (d2, Err e)
        | Some (d2, f, None) => stanzas fuel k' d2 (fs ++ [set_index f i]) (i + 1)
        end
      else Some (d1, Ok fs)
  end.

Definition parseForward (fuel : nat) (d : Dispenser)
  : option (Dispenser * result (list Forward)) :=
  stanzas fuel fuel d [] 0.

(** The loop of [setup] over the parsed stanzas. *)
Fixpoint register (fs : list Forward) (c : Controller) : Controller * option error :=
  match fs with
  | [] => (c, None)
  | f :: rest =>
      if max <? Len f
      then (c, Some (PluginError "forward"
                       (Errorf "more than %d TOs configured: %d" [ArgZ max; ArgZ (Len f)])))
      else register rest
             (mkController (disp c) (plugins c ++ [f]) (onStartup c ++ [f])
                (onShutdown c ++ [f]))
  end.

Definition setup (fuel : nat) (c : Controller) : option (Controller * option error) :=
  match parseForward fuel (disp c) with
  | None => None
  | Some (d, Err e) =>
      Some (mkController d (plugins c) (onStartup c) (onShutdown c),
            Some (PluginError "forward" e))
  | Some (d, Ok fs) =>
      Some (register fs (mkController d (plugins c) (onStartup c) (onShutdown c)))
  end.

(** *** Predicates used in the statements *)

(** The proxy that [parseStanza] makes for a destination, and the
    transport it notes for it. *)
Definition transportOf (host : string) : string := fst (Transport W host).
Definition proxyFor (host : string) : Proxy :=
  NewProxy (snd (Transport W host)) (fst (Transport W host)).

(** The setter calls that the last loop of [parseStanza] makes on a
    proxy noted with transport [tr]. *)
Definition finalCalls (f : Forward) (tr : string) : list ProxyCall :=
  (if String.eqb tr (TLS W) then [SetTLSConfig (tlsConfig f)] else [])
  ++ [SetExpire (expire f); SetRecursionDesired (hcRecursionDesired (opts f))].

(** A proxy after these calls. *)
Definition finished (f : Forward) (tr : string) (px : Proxy) : Proxy :=
  mkProxy (addr px) (trans px) (calls px ++ finalCalls f tr).

(** [f.tlsConfig.ServerName = f.tlsServerName], when the name is set. *)
Definition withServerName (f : Forward) : Forward :=
  if negb (String.eqb (tlsServerName f) "")
  then set_tlsConfig f (set_ServerName (tlsConfig f) (tlsServerName f))
  else f.

(** A name is normalized when it is a value of [Normalize]. *)
Definition normalized (name : string) : Prop := exists s, name = Normalize W s.

(** [g] differs from [f] in no destination and no zone, and its
    exclusion list is that of [f] with normalized names behind it. *)
Definition extends (f g : Forward) : Prop :=
  proxies g = proxies f
  /\ from g = from f
  /\ exists names, ignored g = ignored f ++ map (Normalize W) names.


(** The stanzas [pre] have been parsed without error one after the
    other, starting with the dispenser at [d]; it is at [d'] then. *)
Fixpoint parsesTo (fuel : nat) (d : Dispenser) (pre : list Forward)
    (d' : Dispenser) : Prop :=
  match pre with
  | [] => d' = d
  | f :: rest =>
      exists d1 d2,
        Next d = (true, d1)
        /\ parseStanza fuel d1 = Some (d2, f, None)
        /\ parsesTo fuel d2 rest d'
  end.

End Setup.

(** ** Further predicates on dispensers, lines and configurations *)

(** The cursor stands on a token. *)
Definition onToken (d : Dispenser) : Prop := 0 <= cursor d < len d.

(** The text of the last token of the directive. *)
Definition lastText (d : Dispenser) : string := Val (moveTo d (len d - 1)).

(** [d'] is [d] read further: the same tokens of the same file, the
    cursor not before where it was, and still on a token if it was. *)
Definition readOn (d d' : Dispenser) : Prop :=
  tokens d' = tokens d
  /\ filename d' = filename d
  /\ cursor d <= cursor d'
  /\ (onToken d -> onToken d').

(** The property names that [parseBlock] knows. *)
Definition properties : list string :=
  [ "except"; "except_file"; "max_fails"; "health_check"; "force_tcp";
    "prefer_udp"; "tls"; "tls_servername"; "expire"; "policy";
    "max_concurrent"; "retry_failed" ].

(** Those that read exactly one value with [c.NextArg()]. *)
Definition valued : list string :=
  [ "max_fails"; "health_check"; "tls_servername"; "expire"; "policy";
    "max_concurrent"; "retry_failed" ].

(** Those that [parseBlock] accepts with nothing behind them. *)
Definition bare : list string := [ "force_tcp"; "prefer_udp"; "tls" ].

(** An ASCII white space byte, and an ASCII byte that is neither white
    space nor the comment character. *)
Definition blank (b : byte) : bool :=
  ((9 <=? byteZ b) && (byteZ b <=? 13)) || (byteZ b =? 32).

Definition plain (b : byte) : bool :=
  (byteZ b <? 128) && negb (blank b) && negb (Byte.eqb b hash).

(** The numeric settings of [f] are those of [f0] or values that the
    checks of [parseBlock] let through. *)
Definition settled (f0 f : Forward) : Prop :=
  (maxfails f = maxfails f0 \/ 0 <= maxfails f < 2 ^ 32)
  /\ (hcInterval f = hcInterval f0 \/ 0 <= hcInterval f)
  /\ (expire f = expire f0 \/ 0 <= expire f)
  /\ (maxConcurrent f = maxConcurrent f0 \/ 0 <= maxConcurrent f)
  /\ (maxFailedTries f = maxFailedTries f0 \/ 0 <= maxFailedTries f <= Len f).

(** Modelled from the spec: the health check of proxy.go is not among the
    sources. The health flag of a target is unhealthy iff its
    consecutive-failure counter has reached the failure threshold, and a
    threshold of 0 disables health tracking: the target always counts as
    healthy. *)
Definition unhealthy (threshold fails : Z) : bool :=
  if threshold =? 0 then false else threshold <=? fails.


(** ** A sample environment and sample Corefile stanzas

    One possible [World], used where a property is run on a concrete
    configuration. *)

Module Sample.

Fixpoint endsWithDot (s : string) : bool :=
  match s with
  | EmptyString => false
  | String c EmptyString => Ascii.eqb c "."
  | String _ s' => endsWithDot s'
  end.

Definition normalize (s : string) : string :=
  if endsWithDot s then s else s +:+ ".".

Definition transport (s : string) : string * string :=
  if String.prefix "tls://" s then ("tls", String.substring 6 (String.length s - 6) s)
  else if String.prefix "grpc://" s then ("grpc", String.substring 7 (String.length s - 7) s)
  else ("dns", s).

(** Whole seconds only: ["5s"], ["-5s"]. *)
Definition parseDuration (s : string) : result Z :=
  let n := (String.length s - 1)%nat in
  if String.eqb (String.substring n 1 s) "s" then
    match Atoi 64 (String.substring 0 n s) with
    | Some v => Ok (v * 1000000000)
    | None => Err (External ("time: invalid duration " +:+ s))
    end
  else Err (External ("time: invalid duration " +:+ s)).

Definition blocklist : list (list byte) :=
  map string_to_bytes
    [ "# names that stay local";
      "example.org";
      "  internal.example.   # trailing comment";
      "";
      "corp/example.net/IN";
      "a/b";
      "one two" ].

Definition open (name : string) : result (list (list byte)) :=
  if String.eqb name "blocklist" then Ok blocklist
  else Err (External ("open " +:+ name +:+ ": no such file or directory")).

Definition new : Forward :=
  mkForward [] random 500000000 "." [] (mkTLSConfig "" []) "" 2 10000000000 0 0
    (mkOptions false false true) None 0.

Definition world : World :=
  mkWorld normalize Ok transport "tls" parseDuration
    (fun args => Ok (mkTLSConfig "" args)) open new 64.

(** Tokens of a Corefile, given line by line. *)
Fixpoint lineTokens (n : Z) (words : list string) : list Token :=
  match words with
  | [] => []
  | w :: rest => mkToken "Corefile" n w :: lineTokens n rest
  end.

Fixpoint fileTokens (n : Z) (lines : list (list string)) : list Token :=
  match lines with
  | [] => []
  | l :: rest => lineTokens n l ++ fileTokens (n + 1) rest
  end.

Definition dispenser (lines : list (list string)) : Dispenser :=
  mkDispenser "Corefile" (fileTokens 1 lines) (-1) 0.

Definition controller (lines : list (list string)) : Controller :=
  mkController (dispenser lines) [] [] [].

(** The dispenser standing on token [i], inside the block. *)
Definition at_token (lines : list (list string)) (i : Z) : Dispenser :=
  mkDispenser "Corefile" (fileTokens 1 lines) i 1.

(** The dispenser standing on token [i], before the block. *)
Definition at_argument (lines : list (list string)) (i : Z) : Dispenser :=
  mkDispenser "Corefile" (fileTokens 1 lines) i 0.

Definition both_hints : list (list string) :=
  [ ["forward"; "."; "10.0.0.1"; "tls://10.0.0.2"; "{"];
    ["force_tcp"];
    ["prefer_udp"];
    ["tls_servername"; "dns.example"];
    ["except"; "Example.ORG"; "lan"];
    ["except_file"; "blocklist"];
    ["}"] ].

Definition sixteen : list (list string) :=
  [ ["forward"; "."; "10.0.0.1"; "10.0.0.2"; "10.0.0.3"; "10.0.0.4";
     "10.0.0.5"; "10.0.0.6"; "10.0.0.7"; "10.0.0.8"; "10.0.0.9"; "10.0.0.10";
     "10.0.0.11"; "10.0.0.12"; "10.0.0.13"; "10.0.0.14"; "10.0.0.15";
     "10.0.0.16"] ].

Definition options_block : list (list string) :=
  [ ["forward"; "example.org"; "10.0.0.1"; "10.0.0.2"; "{"];
    ["retry_failed"; "2"];
    ["max_fails"; "4294967296"];
    ["policy"; "round_robin"];
    ["health_check"; "5s"; "no_rec"];
    ["expire"; "30s"];
    ["max_concurrent"; "100"];
    ["}"] ].

Definition grpc_target : list (list string) :=
  [ ["forward"; "."; "10.0.0.1"; "grpc://10.0.0.2"] ].

(** A [Forward] as [parseBlock] meets it: two destinations, no option
    read yet. *)
Definition two_targets : Forward :=
  set_proxies new [NewProxy "10.0.0.1" "dns"; NewProxy "10.0.0.2" "dns"].

(** The dispenser after the [c.Next()] that loads the directive. *)
Definition at_directive (lines : list (list string)) : Dispenser :=
  snd (Next (dispenser lines)).

Definition stanza (fuel : nat) (lines : list (list string)) :=
  parseStanza world fuel (at_directive lines).

(** The stanza [both_hints] as parsed, and where the dispenser is then. *)
Definition both_stanza : Forward :=
  Eval vm_compute in
    match stanza 7 both_hints with
    | Some (_, f, _) => f
    | None => new
    end.

Definition both_end : Dispenser :=
  Eval vm_compute in
    match stanza 7 both_hints with
    | Some (d, _, _) => d
    | None => dispenser []
    end.

(** The stanzas of [sixteen] as [parseForward] returns them. *)
Definition sixteen_stanzas : list Forward :=
  Eval vm_compute in
    match parseForward world 3 (dispenser sixteen) with
    | Some (_, Ok fs) => fs
    | _ => []
    end.

Definition sixteen_end : Dispenser :=
  Eval vm_compute in
    match parseForward world 3 (dispenser sixteen) with
    | Some (d, _) => d
    | None => dispenser []
    end.

Definition negative_block : list (list string) :=
  [ ["forward"; "."; "10.0.0.1"; "{"];
    ["max_fails"; "-1"];
    ["health_check"; "-5s"];
    ["expire"; "-1s"];
    ["max_concurrent"; "-3"];
    ["}"] ].

(** Two stanzas in one server block. *)
Definition two_stanzas : list (list string) := both_hints ++ options_block.

Definition two_parsed : list Forward :=
  Eval vm_compute in
    match parseForward world 8 (dispenser two_stanzas) with
    | Some (_, Ok fs) => fs
    | _ => []
    end.

Definition two_end : Dispenser :=
  Eval vm_compute in
    match parseForward world 8 (dispenser two_stanzas) with
    | Some (d, _) => d
    | None => dispenser []
    end.

(** A block that is not closed and ends on [force_tcp]. *)
Definition unclosed : list (list string) :=
  [ ["forward"; "."; "10.0.0.1"; "{"]; ["force_tcp"] ].

(** Lines that [parseBlock] refuses, and one it accepts. *)
Definition odd_block : list (list string) :=
  [ ["forward"; "."; "10.0.0.1"; "{"];
    ["health_check"; "5s"; "no_rec"];
    ["health_check"; "5s"; "fast"];
    ["force_tcp"; "now"];
    ["tls"; "a"; "b"; "c"; "d"];
    ["except"];
    ["bogus"; "1"];
    ["max_fails"];
    ["}"] ].

(** A stanza without a block. *)
Definition no_block : list (list string) :=
  [ ["forward"; "example.org"; "10.0.0.1"; "tls://10.0.0.2"] ].

(** The stanza [options_block] as parsed. *)
Definition options_stanza : Forward :=
  Eval vm_compute in
    match stanza 8 options_block with
    | Some (_, f, _) => f
    | None => new
    end.

Definition options_end : Dispenser :=
  Eval vm_compute in
    match stanza 8 options_block with
    | Some (d, _, _) => d
    | None => dispenser []
    end.


(** Two stanzas, the second with a destination that is refused. *)
Definition second_refused : list (list string) := both_hints ++ grpc_target.

(** A retry limit above the number of destinations. *)
Definition retry_three : list (list string) :=
  [ ["forward"; "."; "10.0.0.1"; "10.0.0.2"; "{"];
    ["retry_failed"; "3"];
    ["}"] ].

End Sample.

(** * Properties *)

(** ** The library functions *)

Section GoFacts.

#[local] Arguments String.append : simpl nomatch.

Lemma Atoi_range sz s n : Atoi sz s = Some n -> minInt sz <= n <= maxInt sz.
Proof.
  unfold Atoi. destruct s as [|c r]; [discriminate|].
  destruct (Ascii.eqb c "-"), (Ascii.eqb c "+");
    repeat match goal with
           | |- context [match ?x with _ => _ end] => destruct x eqn:?
           end;
    intros; simplify_eq;
    match goal with
    | H : (_ <=? _) && (_ <=? _) = true |- _ =>
        apply andb_true_iff in H as [?%Z.leb_le ?%Z.leb_le]
    end; lia.
Qed.

Lemma int64_small n : - 2 ^ 63 <= n < 2 ^ 63 -> int64 n = n.
Proof. intros H. unfold int64. rewrite Z.mod_small; lia. Qed.

Lemma uint32_small n : 0 <= n < 2 ^ 32 -> uint32 n = n.
Proof. intros H. unfold uint32. rewrite Z.mod_small; lia. Qed.

Lemma hasPrefix_byte (b y : byte) (s : list byte) :
  hasPrefix (y :: s) [b] = Byte.eqb b y.
Proof. simpl. apply andb_true_r. Qed.

Lemma Index_absent (b : byte) (s : list byte) : b ∉ s -> Index s [b] = -1.
Proof.
  induction s as [|y s IH]; intros Hn; [reflexivity|].
  apply not_elem_of_cons in Hn as [Hy Hs].
  cbn [Index]. rewrite hasPrefix_byte, (IH Hs).
  destruct (Byte.eqb b y) eqn:E; [|reflexivity].
  apply Byte.byte_dec_bl in E. congruence.
Qed.

Lemma Index_first (b : byte) (pre post : list byte) :
  b ∉ pre -> Index (pre ++ b :: post) [b] = Z.of_nat (length pre).
Proof.
  induction pre as [|y pre IH]; intros Hn.
  - cbn [app Index]. rewrite hasPrefix_byte, (Byte.byte_dec_lb eq_refl).
    reflexivity.
  - apply not_elem_of_cons in Hn as [Hy Hs].
    cbn [app Index]. rewrite hasPrefix_byte, (IH Hs).
    destruct (Byte.eqb b y) eqn:E.
    + apply Byte.byte_dec_bl in E. congruence.
    + cbn [length]. destruct (Z.of_nat (length pre) <? 0) eqn:E'; lia.
Qed.

Lemma slice_to_prefix (pre post : list byte) :
  slice_to (pre ++ post) (Z.of_nat (length pre)) = pre.
Proof. unfold slice_to. rewrite Nat2Z.id. apply take_app_length. Qed.

Lemma append_assoc (a b c : string) : (a +:+ b) +:+ c = a +:+ (b +:+ c).
Proof.
  induction a as [|x a IH]; cbn [String.append]; [reflexivity|]. now f_equal.
Qed.

Lemma append_empty_r (a : string) : a +:+ "" = a.
Proof.
  induction a as [|x a IH]; cbn [String.append]; [reflexivity|]. now f_equal.
Qed.

Lemma splitFrom_none sep s cur :
  occurrences sep s = O -> splitFrom s sep cur = [cur +:+ s].
Proof.
  revert cur. induction s as [|x s IH]; intros cur H;
    cbn [splitFrom occurrences] in *.
  - now rewrite append_empty_r.
  - destruct (Ascii.eqb x sep); [discriminate|].
    rewrite IH by assumption. now rewrite append_assoc.
Qed.

Lemma splitFrom_first sep a r cur :
  occurrences sep a = O ->
  splitFrom (a +:+ String sep r) sep cur = (cur +:+ a) :: splitFrom r sep "".
Proof.
  revert cur. induction a as [|x a IH]; intros cur H;
    cbn [String.append splitFrom occurrences] in *.
  - rewrite Ascii.eqb_refl. now rewrite append_empty_r.
  - destruct (Ascii.eqb x sep); [discriminate|].
    rewrite IH by assumption. now rewrite append_assoc.
Qed.

Lemma splitFrom_length sep s cur :
  length (splitFrom s sep cur) = S (occurrences sep s).
Proof.
  revert cur. induction s as [|x s IH]; intros cur;
    cbn [splitFrom occurrences]; [reflexivity|].
  destruct (Ascii.eqb x sep); cbn [length]; now rewrite IH.
Qed.

(** A string in which [sep] occurs can be cut at the first occurrence. *)
Lemma occurrences_cut sep s n :
  occurrences sep s = S n ->
  exists a r, s = a +:+ String sep r /\ occurrences sep a = O
              /\ occurrences sep r = n.
Proof.
  induction s as [|x s IH]; cbn [occurrences]; [discriminate|].
  destruct (Ascii.eqb x sep) eqn:E; intros H.
  - apply Ascii.eqb_eq in E. subst x. exists "", s.
    split; [reflexivity|]. split; [reflexivity|lia].
  - destruct (IH H) as (a & r & -> & Ha & Hr).
    exists (String x a), r. cbn [String.append occurrences]. rewrite E. auto.
Qed.

Lemma Split_whole s : occurrences "/" s = O -> Split s "/" = [s].
Proof. intros H. unfold Split. now rewrite splitFrom_none. Qed.

Lemma Split_three a b c :
  occurrences "/" a = O -> occurrences "/" b = O -> occurrences "/" c = O ->
  Split (a +:+ "/" +:+ b +:+ "/" +:+ c) "/" = [a; b; c].
Proof.
  intros Ha Hb Hc. unfold Split.
  change (a +:+ "/" +:+ b +:+ "/" +:+ c)
    with (a +:+ String "/" (b +:+ String "/" c)).
  rewrite splitFrom_first by assumption.
  rewrite splitFrom_first by assumption.
  now rewrite splitFrom_none.
Qed.

End GoFacts.

(** ** The dispenser *)

Section CaddyFacts.

Lemma moveTo_back d :
  moveTo (moveTo d (cursor d + 1)) (cursor (moveTo d (cursor d + 1)) - 1) = d.
Proof. destruct d; unfold moveTo; simpl. f_equal. lia. Qed.

Lemma NextArg_inv d ok d1 :
  NextArg d = (ok, d1) ->
  (ok = false /\ d1 = d)
  \/ (ok = true /\ d1 = moveTo d (cursor d + 1)
      /\ (cursor d < 0 \/ cursor d < len d - 1)).
Proof.
  unfold NextArg.
  destruct (cursor d <? 0) eqn:E0.
  { intros [= <- <-]. right. repeat split. lia. }
  destruct (len d <=? cursor d); [intros [= <- <-]; now left|].
  destruct (cursor d <? len d - 1) eqn:E1; simpl.
  - destruct (sameLine d); intros [= <- <-]; [right|now left].
    repeat split. lia.
  - intros [= <- <-]. now left.
Qed.

Lemma argFuel_step d :
  cursor d < 0 \/ cursor d < len d - 1 ->
  argFuel d = S (argFuel (moveTo d (cursor d + 1))).
Proof. unfold argFuel, len. simpl. lia. Qed.

Lemma NextArg_spent d : argFuel d = O -> NextArg d = (false, d).
Proof.
  intros H. destruct (NextArg d) as [ok d1] eqn:E.
  destruct (NextArg_inv _ _ _ E) as [[-> ->]|(_ & _ & Hc)]; [reflexivity|].
  rewrite (argFuel_step _ Hc) in H. discriminate.
Qed.

(** [RemainingArgs] stops because the line is at its end or at an
    opening brace, never because its bound was too small. *)
Lemma remainingArgs_stop fuel d acc args d' :
  (argFuel d <= fuel)%nat ->
  remainingArgs fuel d acc = (args, d') ->
  fst (NextArg d') = false \/ Val (snd (NextArg d')) = "{".
Proof.
  revert d acc. induction fuel as [|k IH]; intros d acc Hf; simpl.
  - intros [= <- <-]. left. rewrite NextArg_spent by lia. reflexivity.
  - destruct (NextArg d) as [ok d1] eqn:E.
    destruct (NextArg_inv _ _ _ E) as [[-> ->]|(-> & -> & Hc)].
    + intros [= <- <-]. left. now rewrite E.
    + destruct (String.eqb (Val (moveTo d (cursor d + 1))) "{") eqn:Eb.
      * intros [= <- <-]. right.
        rewrite moveTo_back, E. simpl. now apply String.eqb_eq.
      * apply IH. rewrite (argFuel_step _ Hc) in Hf. lia.
Qed.

Lemma RemainingArgs_stop d args d' :
  RemainingArgs d = (args, d') ->
  fst (NextArg d') = false \/ Val (snd (NextArg d')) = "{".
Proof. unfold RemainingArgs. now apply remainingArgs_stop. Qed.

End CaddyFacts.

(** ** The options of [health_check] *)

(** Enter the case of [parseBlock] that the current token selects. *)
Ltac enter_block H :=
  unfold parseBlock; rewrite H;
  cbn [String.eqb Ascii.eqb Bool.eqb andb].

(** Decide the integer comparisons in the goal. *)
Ltac zcases :=
  repeat match goal with
         | |- context [?a <? ?b] => destruct (Z.ltb_spec a b); try lia
         end.

Section Blocks.

Context (W : World).

(** [hcOptions] only writes the recursion-desired flag, and fails with
    one error only. *)
Lemma hcOptions_frame fuel d f d' f' err :
  hcOptions fuel d f = (d', f', err) ->
  hcInterval f' = hcInterval f
  /\ (err = None
      \/ exists o, err = Some (Errorf "health_check: unknown option %s" [ArgS o])).
Proof.
  revert d f. induction fuel as [|k IH]; intros d f; simpl.
  - intros [= <- <- <-]. auto.
  - destruct (NextArg d) as [[] d1].
    + destruct (String.eqb (Val d1) "no_rec").
      * intros H. apply IH in H as [H1 H2]. split; [exact H1|exact H2].
      * intros [= <- <- <-]. split; [reflexivity|]. right. eauto.
    + intros [= <- <- <-]. auto.
Qed.

(** The loop over the options of [health_check] ends at the end of the
    line or with an error: its bound is large enough. *)
Lemma hcOptions_stop fuel d f d' f' err :
  (argFuel d <= fuel)%nat ->
  hcOptions fuel d f = (d', f', err) ->
  err <> None \/ NextArg d' = (false, d').
Proof.
  revert d f. induction fuel as [|k IH]; intros d f Hf; simpl.
  - intros [= <- <- <-]. right. apply NextArg_spent. lia.
  - destruct (NextArg d) as [ok d1] eqn:E.
    destruct (NextArg_inv _ _ _ E) as [[-> ->]|(-> & -> & Hc)].
    + intros [= <- <- <-]. now right.
    + destruct (String.eqb _ "no_rec").
      * apply IH. rewrite (argFuel_step _ Hc) in Hf. lia.
      * intros [= <- <- <-]. now left.
Qed.

End Blocks.

(** ** What a block leaves alone *)

Section Frames.

Context (W : World).

Lemma extends_refl f : extends W f f.
Proof. repeat split. exists []. simpl. now rewrite app_nil_r. Qed.

Lemma extends_trans f g h : extends W f g -> extends W g h -> extends W f h.
Proof.
  intros (P1 & F1 & n1 & I1) (P2 & F2 & n2 & I2). repeat split; try congruence.
  exists (n1 ++ n2). rewrite I2, I1, map_app. now rewrite app_assoc.
Qed.

Lemma extends_ignore f name : extends W f (ignore W f name).
Proof. repeat split. now exists [name]. Qed.

Lemma fold_ignore names f :
  ignored (fold_left (ignore W) names f) = ignored f ++ map (Normalize W) names
  /\ extends W f (fold_left (ignore W) names f).
Proof.
  revert f. induction names as [|x names IH]; intros f; simpl.
  - split; [now rewrite app_nil_r|apply extends_refl].
  - destruct (IH (ignore W f x)) as [E1 E2]. split.
    + rewrite E1. simpl. now rewrite <- app_assoc.
    + eapply extends_trans; [apply extends_ignore|exact E2].
Qed.

Lemma extends_scanLine f line : extends W f (scanLine W f line).
Proof.
  unfold scanLine.
  repeat match goal with
         | |- context [match ?x with _ => _ end] => destruct x
         end; auto using extends_refl, extends_ignore.
Qed.

Lemma extends_scan lines f : extends W f (fold_left (scanLine W) lines f).
Proof.
  revert f. induction lines as [|l lines IH]; intros f; simpl.
  - apply extends_refl.
  - eapply extends_trans; [apply extends_scanLine|apply IH].
Qed.

Lemma extends_hcOptions fuel d f d' f' err :
  hcOptions fuel d f = (d', f', err) -> extends W f f'.
Proof.
  revert d f. induction fuel as [|k IH]; intros d f; simpl.
  - intros [= <- <- <-]. apply extends_refl.
  - destruct (NextArg d) as [[] d1].
    + destruct (String.eqb (Val d1) "no_rec").
      * intros H. apply IH in H. eapply extends_trans; [|exact H].
        repeat split. exists []. simpl. now rewrite app_nil_r.
      * intros [= <- <- <-]. apply extends_refl.
    + intros [= <- <- <-]. apply extends_refl.
Qed.

(** A field other than the three of [extends] may be written freely. *)
Lemma extends_same f g :
  proxies g = proxies f -> from g = from f -> ignored g = ignored f -> extends W f g.
Proof. intros H1 H2 H3. repeat split; auto. exists []. simpl. now rewrite app_nil_r. Qed.

Lemma extends_parseBlock d f d' f' err :
  parseBlock W d f = (d', f', err) -> extends W f f'.
Proof.
  unfold parseBlock.
  repeat match goal with
         | |- context [hcOptions ?k ?x ?y] =>
             let E := fresh "E" in
             destruct (hcOptions k x y) as [[? ?] ?] eqn:E;
             apply extends_hcOptions in E
         | |- context [if ?c then _ else _] => destruct c
         | |- context [match ?x with _ => _ end] => destruct x
         end;
    intros [= <- <- <-];
    try apply extends_refl;
    try apply fold_ignore;
    try apply extends_scan;
    try (apply extends_same; reflexivity).
  eapply extends_trans; [|eassumption]. now apply extends_same.
Qed.

Lemma extends_blocks fuel d f d' f' err :
  blocks W fuel d f = Some (d', f', err) -> extends W f f'.
Proof.
  revert d f. induction fuel as [|k IH]; intros d f; simpl; [discriminate|].
  destruct (NextBlock d) as [[] d1].
  - destruct (parseBlock W d1 f) as [[d2 f2] [e|]] eqn:E;
      apply extends_parseBlock in E.
    + now intros [= <- <- <-].
    + intros H. apply IH in H. eapply extends_trans; eassumption.
  - intros [= <- <- <-]. apply extends_refl.
Qed.

End Frames.

(** ** The stanza *)

Section Stanza.

Context (W : World).

Lemma allowed_iff tr : allowed tr = true <-> tr = "dns" \/ tr = "tls".
Proof.
  unfold allowed, allowedTrans. split.
  - destruct (decide (tr = "dns")) as [->|Hd]; [now left|].
    destruct (decide (tr = "tls")) as [->|Ht]; [now right|].
    rewrite !lookup_insert_ne, lookup_empty by congruence. discriminate.
  - intros [-> | ->].
    + now rewrite lookup_insert_eq.
    + rewrite lookup_insert_ne by discriminate. now rewrite lookup_insert_eq.
Qed.

Lemma set_proxies_id f : set_proxies f (proxies f) = f.
Proof. now destruct f. Qed.

(** The destinations loop when every transport is allowed. *)
Lemma addProxies_ok hosts i f tr :
  Forall (fun h => allowed (transportOf W h) = true) hosts ->
  length tr = (i + length hosts)%nat ->
  addProxies W hosts i f tr
  = (set_proxies f (proxies f ++ map (proxyFor W) hosts),
     take i tr ++ map (transportOf W) hosts, None).
Proof.
  revert i f tr. induction hosts as [|host rest IH]; intros i f tr Hall Hlen.
  - simpl in *. rewrite !app_nil_r, set_proxies_id, take_ge by lia. reflexivity.
  - apply Forall_cons in Hall as [Hh Hrest]. simpl in Hlen.
    cbn [addProxies]. unfold transportOf in Hh.
    destruct (Transport W host) as [t h] eqn:Et. simpl in Hh. rewrite Hh.
    cbn [negb].
    rewrite IH; [|assumption|rewrite length_insert; lia].
    do 2 f_equal.
    + unfold set_proxies at 1. simpl. unfold set_proxies, proxyFor.
      rewrite Et. simpl. now rewrite <- app_assoc.
    + rewrite (take_S_r _ _ t) by (apply list_lookup_insert_eq; lia).
      rewrite take_insert_ge by lia.
      assert (Ht : transportOf W host = t) by (unfold transportOf; now rewrite Et).
      cbn [map]. rewrite Ht. now rewrite <- app_assoc.
Qed.

(** The destinations loop stops at the first transport that is not
    allowed, with the error that names it. *)
Lemma addProxies_err hosts i f tr :
  Exists (fun h => allowed (transportOf W h) = false) hosts ->
  exists bad f' tr',
    bad ∈ hosts /\ allowed (transportOf W bad) = false
    /\ addProxies W hosts i f tr
       = (f', tr',
          Some (Errorf "'%s' is not supported as a destination protocol in forward: %s"
                  [ArgS (transportOf W bad); ArgS bad])).
Proof.
  revert i f tr. induction hosts as [|host rest IH]; intros i f tr Hex.
  - inversion Hex.
  - cbn [addProxies]. unfold transportOf in *.
    destruct (Transport W host) as [t h] eqn:Et.
    destruct (allowed t) eqn:Ea; cbn [negb].
    + apply Exists_cons in Hex as [Hex|Hex]; [rewrite Et in Hex; simpl in Hex; congruence|].
      destruct (IH (S i) (set_proxies f (proxies f ++ [NewProxy h t]))
                  (<[i:=t]> tr) Hex) as (bad & f' & tr' & Hin & Hbad & E).
      exists bad, f', tr'. split; [now apply list_elem_of_further|]. auto.
    + exists host, f, tr. rewrite Et. simpl. split; [apply list_elem_of_here|]. auto.
Qed.

(** The same, with the destinations before the offending one spelled
    out: each of them has got its proxy. *)
Lemma addProxies_first pre bad post i f tr :
  Forall (fun h => allowed (transportOf W h) = true) pre ->
  allowed (transportOf W bad) = false ->
  exists tr',
    addProxies W (pre ++ bad :: post) i f tr
    = (set_proxies f (proxies f ++ map (proxyFor W) pre), tr',
       Some (Errorf "'%s' is not supported as a destination protocol in forward: %s"
               [ArgS (transportOf W bad); ArgS bad])).
Proof.
  revert i f tr. induction pre as [|h pre IH]; intros i f tr Hpre Hbad.
  - cbn [app addProxies map]. unfold transportOf in *.
    destruct (Transport W bad) as [t a]. simpl in Hbad. rewrite Hbad.
    exists tr. cbn [negb fst]. now rewrite app_nil_r, set_proxies_id.
  - apply Forall_cons in Hpre as [Hh Hpre]. cbn [app addProxies].
    assert (Hp : proxyFor W h = NewProxy (snd (Transport W h)) (fst (Transport W h)))
      by reflexivity.
    unfold transportOf in Hh.
    destruct (Transport W h) as [t a]. simpl in Hh, Hp. rewrite Hh. cbn [negb].
    destruct (IH (S i) (set_proxies f (proxies f ++ [NewProxy a t]))
                (<[i:=t]> tr) Hpre Hbad) as [tr' E].
    exists tr'. rewrite E. cbn [map]. rewrite Hp.
    unfold set_proxies. cbn [proxies]. now rewrite <- app_assoc.
Qed.

Lemma first_not_allowed hosts :
  Exists (fun h => allowed (transportOf W h) = false) hosts ->
  exists pre bad post,
    hosts = pre ++ bad :: post
    /\ Forall (fun h => allowed (transportOf W h) = true) pre
    /\ allowed (transportOf W bad) = false.
Proof.
  induction hosts as [|h hosts IH]; intros Hex; [inversion Hex|].
  destruct (allowed (transportOf W h)) eqn:Eh.
  - apply Exists_cons in Hex as [Hex|Hex]; [congruence|].
    destruct (IH Hex) as (pre & bad & post & -> & Hpre & Hbad).
    exists (h :: pre), bad, post. split; [reflexivity|]. split; [|assumption].
    now constructor.
  - exists [], h, hosts. split; [reflexivity|]. split; [constructor|assumption].
Qed.

Lemma addProxies_None hosts i f tr f' tr' :
  addProxies W hosts i f tr = (f', tr', None) ->
  Forall (fun h => allowed (transportOf W h) = true) hosts.
Proof.
  intros E. apply Forall_forall. intros h Hin.
  destruct (allowed (transportOf W h)) eqn:Ea; [reflexivity|].
  destruct (addProxies_err hosts i f tr) as (bad & f1 & tr1 & _ & _ & E1).
  { apply Exists_exists. exists h. split; assumption. }
  rewrite E in E1. discriminate.
Qed.

Lemma Args_one d ok vals d1 :
  Args 1 d = (ok, vals, d1) ->
  NextArg d = (ok, d1) /\ (ok = true -> vals = [Val d1]).
Proof.
  cbn [Args]. destruct (NextArg d) as [[] d0]; cbn [negb];
    intros [= <- <- <-]; split; congruence.
Qed.

(** One turn of the last loop of [parseStanza]. *)
Lemma finish_seq k i f tr f' :
  finish W (seq i k) tr f = Some f' ->
  f' = set_proxies f (proxies f')
  /\ length (proxies f') = length (proxies f)
  /\ forall j px', proxies f' !! j = Some px' ->
       exists px, proxies f !! j = Some px
         /\ ((i <= j < i + k)%nat
             /\ (exists t, tr !! j = Some t /\ px' = finished W f t px)
             \/ ~ (i <= j < i + k)%nat /\ px' = px).
Proof.
  revert i f. induction k as [|k IH]; intros i f; cbn [seq finish].
  - intros [= <-]. split; [now rewrite set_proxies_id|]. split; [reflexivity|].
    intros j px' Hj. exists px'. split; [assumption|]. right. split; [lia|reflexivity].
  - destruct (tr !! i) as [t|] eqn:Et; [|discriminate].
    destruct (proxies f !! i) as [px|] eqn:Ep; [|discriminate].
    intros H. apply IH in H as (Hf & Hlen & Hl). split; [|split].
    + rewrite Hf. reflexivity.
    + rewrite Hlen. cbn [proxies set_proxies]. apply length_insert.
    + intros j px' Hj. destruct (Hl j px' Hj) as (px1 & H1 & Hc).
      cbn [proxies set_proxies] in H1.
      destruct (decide (i = j)) as [<-|Hne].
      * rewrite list_lookup_insert_eq in H1 by (eapply lookup_lt_Some; eassumption).
        injection H1 as <-. exists px. split; [assumption|]. left.
        split; [lia|]. exists t. split; [assumption|].
        destruct Hc as [[Hr _]|[_ ->]]; [lia|].
        unfold finished, finalCalls, call.
        destruct (String.eqb t (TLS W)); cbn [addr trans calls];
          now rewrite <- ?app_assoc.
      * rewrite list_lookup_insert_ne in H1 by assumption.
        exists px1. split; [assumption|].
        destruct Hc as [[Hr (t' & Ht' & ->)]|[Hr ->]].
        -- left. split; [lia|]. exists t'. split; [assumption|reflexivity].
        -- right. split; [lia|reflexivity].
Qed.

(** What a stanza that parses went through. *)
Lemma parseStanza_ok fuel d d3 f :
  parseStanza W fuel d = Some (d3, f, None) ->
  exists v d1 to d2 toHosts f4,
    Args 1 d = (true, [v], d1)
    /\ RemainingArgs d1 = (to, d2) /\ to <> []
    /\ HostPortOrFile W to = Ok toHosts
    /\ Forall (fun h => allowed (transportOf W h) = true) toHosts
    /\ blocks W fuel d2
         (set_proxies (set_from (New W) (Normalize W v))
            (proxies (New W) ++ map (proxyFor W) toHosts))
       = Some (d3, f4, None)
    /\ finish W (seq 0 (length (proxies f4))) (map (transportOf W) toHosts)
         (withServerName f4) = Some f.
Proof.
  unfold parseStanza.
  destruct (Args 1 d) as [[ok vals] d1] eqn:EA.
  destruct (Args_one _ _ _ _ EA) as [_ Hvals].
  destruct ok; cbn [negb]; [|discriminate].
  rewrite (Hvals eq_refl) in *.
  destruct (RemainingArgs d1) as [to d2] eqn:ER.
  destruct to as [|t0 to]; cbn [length Nat.eqb]; [discriminate|].
  destruct (HostPortOrFile W (t0 :: to)) as [toHosts|e] eqn:EH; [|discriminate].
  destruct (addProxies W toHosts 0 _ _) as [[f3 transports] [e|]] eqn:EP;
    [discriminate|].
  pose proof (addProxies_None _ _ _ _ _ _ EP) as Hall.
  rewrite addProxies_ok in EP by (rewrite ?length_replicate; auto).
  injection EP as <- <-.
  destruct (blocks W fuel d2 _) as [[[d3' f4] [e|]]|] eqn:EB; try discriminate.
  fold (withServerName f4).
  assert (Hlen : length (proxies (withServerName f4)) = length (proxies f4)).
  { unfold withServerName. now destruct (negb _). }
  rewrite Hlen.
  destruct (finish W _ _ _) as [f6|] eqn:EF; [|discriminate].
  intros [= <- <-].
  exists (Val d1), d1, (t0 :: to), d2, toHosts, f4.
  repeat split; try assumption; try discriminate.
Qed.

(** The result of a stanza that parses: the defaults have no
    destination, and every destination has become a proxy on which the
    last loop has made its calls. *)
Lemma parseStanza_result fuel d d3 f :
  parseStanza W fuel d = Some (d3, f, None) ->
  exists v d1 to d2 toHosts f4,
    Args 1 d = (true, [v], d1)
    /\ RemainingArgs d1 = (to, d2) /\ to <> []
    /\ HostPortOrFile W to = Ok toHosts
    /\ Forall (fun h => allowed (transportOf W h) = true) toHosts
    /\ proxies (New W) = []
    /\ blocks W fuel d2
         (set_proxies (set_from (New W) (Normalize W v)) (map (proxyFor W) toHosts))
       = Some (d3, f4, None)
    /\ f = set_proxies (withServerName f4)
             (map (fun h => finished W (withServerName f4) (transportOf W h)
                              (proxyFor W h)) toHosts).
Proof.
  intros H. apply parseStanza_ok in H
    as (v & d1 & to & d2 & toHosts & f4 & HA & HR & Hto & HH & Hall & HB & HF).
  pose proof (extends_blocks _ _ _ _ _ _ _ HB) as (Hp4 & _ & _).
  cbn [proxies set_proxies] in Hp4.
  set (f5 := withServerName f4) in *.
  assert (Hp5 : proxies f5 = proxies f4).
  { unfold f5, withServerName. now destruct (negb _). }
  apply finish_seq in HF as (Hf & Hlen & Hl).
  rewrite Hp5 in Hlen.
  assert (Hnew : proxies (New W) = []).
  { destruct (proxies (New W)) as [|p0 ps] eqn:En; [reflexivity|exfalso].
    destruct (lookup_lt_is_Some_2 (proxies f) (length toHosts)) as [px' Hpx'].
    { rewrite Hlen, Hp4, length_app, length_map. simpl. lia. }
    destruct (Hl _ _ Hpx') as (px & _ & [[_ (t & Ht & _)]|[Hr _]]).
    - apply lookup_lt_Some in Ht. rewrite length_map in Ht. lia.
    - apply Hr. rewrite Hp4, length_app, length_map. simpl. lia. }
  rewrite Hnew in *. cbn [app] in *.
  exists v, d1, to, d2, toHosts, f4. repeat split; try assumption.
  rewrite Hf. f_equal. apply list_eq. intros j.
  destruct (proxies f !! j) as [px'|] eqn:Ej.
  - destruct (Hl _ _ Ej) as (px & Hpx & [[_ (t & Ht & ->)]|[Hr _]]).
    + rewrite Hp5, Hp4 in Hpx.
      change (map (proxyFor W) toHosts) with (proxyFor W <$> toHosts) in Hpx.
      change (map (transportOf W) toHosts) with (transportOf W <$> toHosts) in Ht.
      rewrite list_lookup_fmap in Hpx. rewrite list_lookup_fmap in Ht.
      destruct (toHosts !! j) as [h|] eqn:Eh; [|discriminate].
      injection Hpx as <-. injection Ht as <-.
      change (map ?g toHosts) with (g <$> toHosts).
      now rewrite list_lookup_fmap, Eh.
    + exfalso. apply Hr. apply lookup_lt_Some in Ej. lia.
  - symmetry. apply lookup_ge_None. apply lookup_ge_None in Ej.
    rewrite length_map. rewrite Hlen, Hp4, length_map in Ej. lia.
Qed.

End Stanza.

(** ** The properties of a stanza *)

Section StanzaProperties.

Context (W : World).

Lemma not_allowed_iff tr : allowed tr = false <-> tr <> "dns" /\ tr <> "tls".
Proof.
  pose proof (allowed_iff tr) as H. destruct (allowed tr); split.
  - discriminate.
  - intros [H1 H2]. destruct (proj1 H eq_refl); contradiction.
  - intros _. split; intros ->; destruct H as [_ H]; discriminate H; auto.
  - reflexivity.
Qed.

(** C5: a destination whose transport is neither dns nor tls makes
    [parseStanza] fail: the loop over the destinations stops at the
    first such destination, the error names its protocol and the
    destination, and the destinations before it have got their proxies.
    When every transport is dns or tls, the loop makes one proxy per
    destination, with its address and its transport, and a stanza that
    parses has exactly these proxies, in order. *)
Theorem destinations_checked (fuel : nat) (d d1 d2 : Dispenser)
    (v : string) (to toHosts : list string) :
  Args 1 d = (true, [v], d1) ->
  RemainingArgs d1 = (to, d2) ->
  to <> [] ->
  HostPortOrFile W to = Ok toHosts ->
  (forall host, host ∈ toHosts ->
     transportOf W host <> "dns" -> transportOf W host <> "tls" ->
     exists pre bad post,
       toHosts = pre ++ bad :: post
       /\ Forall (fun h => transportOf W h = "dns" \/ transportOf W h = "tls") pre
       /\ transportOf W bad <> "dns" /\ transportOf W bad <> "tls"
       /\ parseStanza W fuel d
          = Some (d2,
                  set_proxies (set_from (New W) (Normalize W v))
                    (proxies (New W) ++ map (proxyFor W) pre),
                  Some (Errorf "'%s' is not supported as a destination protocol in forward: %s"
                          [ArgS (transportOf W bad); ArgS bad])))
  /\ (Forall (fun host => transportOf W host = "dns" \/ transportOf W host = "tls")
        toHosts ->
      addProxies W toHosts 0 (set_from (New W) (Normalize W v))
        (replicate (length toHosts) "")
      = (set_proxies (set_from (New W) (Normalize W v))
           (proxies (New W) ++ map (proxyFor W) toHosts),
         map (transportOf W) toHosts, None)
      /\ forall d3 f,
           parseStanza W fuel d = Some (d3, f, None) ->
           map (fun px => (addr px, trans px)) (proxies f)
           = map (fun host => (snd (Transport W host), fst (Transport W host)))
               toHosts).
Proof.
  intros HA HR Hto HH. split.
  - intros host Hin Hd Ht.
    assert (Hex : Exists (fun h => allowed (transportOf W h) = false) toHosts).
    { apply Exists_exists. exists host. split; [assumption|].
      now apply not_allowed_iff. }
    destruct (first_not_allowed W _ Hex) as (pre & bad & post & Hsplit & Hpre & Hbad).
    destruct (addProxies_first W pre bad post 0
                (set_from (New W) (Normalize W v))
                (replicate (length toHosts) "") Hpre Hbad) as [tr' E].
    exists pre, bad, post. apply not_allowed_iff in Hbad as [Hb1 Hb2].
    split; [assumption|]. split.
    { eapply Forall_impl; [exact Hpre|]. intros h Hh. now apply allowed_iff. }
    split; [assumption|]. split; [assumption|].
    unfold parseStanza. rewrite HA. cbn [negb]. rewrite HR.
    destruct to as [|t0 to]; [contradiction|]. cbn [length Nat.eqb].
    rewrite HH.
    change (set_from (set_from (New W) v) (Normalize W (from (set_from (New W) v))))
      with (set_from (New W) (Normalize W v)).
    rewrite Hsplit at 1. now rewrite E.
  - intros Hall.
    assert (Hall' : Forall (fun h => allowed (transportOf W h) = true) toHosts).
    { eapply Forall_impl; [exact Hall|]. intros h Hh. now apply allowed_iff. }
    split.
    + rewrite addProxies_ok by (rewrite ?length_replicate; auto). reflexivity.
    + intros d3 f Hok.
      apply parseStanza_result in Hok
        as (v' & d1' & to' & d2' & hosts' & f4 & HA' & HR' & _ & HH' & _ & _ & _ & ->).
      rewrite HA in HA'. injection HA' as <- <-.
      rewrite HR in HR'. injection HR' as <- <-.
      rewrite HH in HH'. injection HH' as <-.
      cbn [proxies set_proxies]. rewrite map_map. reflexivity.
Qed.

(** C9: in a stanza that parses, the zone is the normalized first
    argument, and the exclusion list is the default one followed by
    normalized names only; every call of [parseBlock] (so every
    [except] and [except_file]) adds normalized names only. *)
Theorem stored_names_normalized (fuel : nat) (d d3 : Dispenser) (f : Forward) :
  parseStanza W fuel d = Some (d3, f, None) ->
  normalized W (from f)
  /\ (exists names, ignored f = ignored (New W) ++ map (Normalize W) names)
  /\ (Forall (normalized W) (ignored (New W)) -> Forall (normalized W) (ignored f))
  /\ (forall b g b' g' err,
        parseBlock W b g = (b', g', err) ->
        exists names, ignored g' = ignored g ++ map (Normalize W) names).
Proof.
  intros Hok.
  apply parseStanza_result in Hok
    as (v & d1 & to & d2 & toHosts & f4 & _ & _ & _ & _ & _ & _ & HB & ->).
  apply extends_blocks in HB as (_ & Hfrom & names & Hign).
  cbn [from ignored set_proxies set_from] in *.
  assert (Hf : from (withServerName f4) = from f4)
    by (unfold withServerName; now destruct (negb _)).
  assert (Hi : ignored (withServerName f4) = ignored f4)
    by (unfold withServerName; now destruct (negb _)).
  rewrite Hf, Hi, Hfrom, Hign.
  split; [now exists v|]. split; [now exists names|]. split.
  - intros Hnew. apply Forall_app. split; [assumption|].
    apply Forall_forall. intros x Hx.
    apply list_elem_of_In, in_map_iff in Hx as (s & <- & _). now exists s.
  - intros b g b' g' err Hb. now apply extends_parseBlock in Hb as (_ & _ & ?).
Qed.

End StanzaProperties.

(** ** The transport hints and the exclusion file *)

Section Hints.

Context (W : World).


(** C2, as the code has it. [except_file] runs [scanLine] over the lines
    of the file, in order. For one line: what follows the first '#' is
    dropped. If what is left is one field, the field is added,
    normalized, when it has no '/', and its middle part is added,
    normalized, when it has exactly two '/'; with any other number of
    '/' nothing is added. If what is left is no field or more than one,
    nothing is added. *)
Theorem except_file_lines (d d1 : Dispenser) (f : Forward) (name : string)
    (lines : list (list byte)) :
  Val d = "except_file" ->
  RemainingArgs d = ([name], d1) ->
  Open W name = Ok lines ->
  parseBlock W d f = (d1, fold_left (scanLine W) lines f, None)
  /\ forall (g : Forward) (line : list byte),
       (forall pre post, line = pre ++ hash :: post -> hash ∉ pre ->
          scanLine W g line = scanLine W g pre)
       /\ (hash ∉ line ->
           (forall field, Fields line = [field] ->
              (occurrences "/" (bytes_to_string field) = 0%nat ->
                 scanLine W g line = ignore W g (bytes_to_string field))
              /\ (occurrences "/" (bytes_to_string field) = 2%nat ->
                  exists a b c,
                    bytes_to_string field = a +:+ "/" +:+ b +:+ "/" +:+ c
                    /\ occurrences "/" b = 0%nat
                    /\ scanLine W g line = ignore W g b)
              /\ (occurrences "/" (bytes_to_string field) <> 0%nat ->
                  occurrences "/" (bytes_to_string field) <> 2%nat ->
                  scanLine W g line = g))
           /\ (length (Fields line) <> 1%nat -> scanLine W g line = g)).
Proof.
  intros Hv HR HO. split.
  { enter_block Hv. now rewrite HR, HO. }
  intros g line. split.
  { intros pre post -> Hpre. unfold scanLine.
    rewrite Index_first, Index_absent by assumption.
    destruct (Z.leb_spec 0 (Z.of_nat (length pre))); [|lia].
    cbn [Z.leb]. now rewrite slice_to_prefix. }
  intros Hline.
  assert (Hscan : scanLine W g line
                  = match Fields line with
                    | [field] =>
                        match Split (bytes_to_string field) "/" with
                        | [domain] => ignore W g domain
                        | [_; domain; _] => ignore W g domain
                        | _ => g
                        end
                    | _ => g
                    end).
  { unfold scanLine. now rewrite Index_absent by assumption. }
  split.
  - intros field HF. rewrite Hscan, HF. repeat split.
    + intros H0. now rewrite Split_whole.
    + intros H2.
      destruct (occurrences_cut _ _ _ H2) as (a & r & Hr & Ha & Hr1).
      destruct (occurrences_cut _ _ _ Hr1) as (b & c & Hc & Hb & Hc0).
      exists a, b, c. subst r. split; [exact Hr|]. split; [exact Hb|].
      rewrite Hr.
      change (a +:+ String "/" (b +:+ String "/" c))
        with (a +:+ "/" +:+ b +:+ "/" +:+ c).
      now rewrite Split_three.
    + intros H0 H2.
      pose proof (splitFrom_length "/" (bytes_to_string field) "") as Hl.
      fold (Split (bytes_to_string field) "/") in Hl.
      destruct (Split (bytes_to_string field) "/") as [|x [|y [|z [|w l]]]];
        simpl in Hl; try reflexivity; lia.
  - intros Hl. rewrite Hscan.
    destruct (Fields line) as [|x [|y l]]; simpl in Hl; try reflexivity; lia.
Qed.

End Hints.

(** ** setup *)

Section SetupProperties.

Context (W : World).

(** The loop of [setup] registers the stanzas up to the first one with
    more than [max] destinations, and fails at that one. *)
Lemma register_spec fs c :
  exists reg rest,
    fs = reg ++ rest
    /\ Forall (fun f => Len f <= max) reg
    /\ fst (register fs c)
       = mkController (disp c) (plugins c ++ reg) (onStartup c ++ reg)
           (onShutdown c ++ reg)
    /\ match rest with
       | [] => snd (register fs c) = None
       | g :: _ =>
           max < Len g
           /\ snd (register fs c)
              = Some (PluginError "forward"
                        (Errorf "more than %d TOs configured: %d"
                           [ArgZ max; ArgZ (Len g)]))
       end.
Proof.
  revert c. induction fs as [|f fs IH]; intros c.
  - exists [], []. simpl. rewrite !app_nil_r. now destruct c.
  - cbn [register]. destruct (Z.ltb_spec max (Len f)) as [Hbig|Hok].
    + exists [], (f :: fs). simpl. rewrite !app_nil_r. now destruct c.
    + destruct (IH (mkController (disp c) (plugins c ++ [f]) (onStartup c ++ [f])
                      (onShutdown c ++ [f]))) as (reg & rest & -> & Hreg & Hc & Hr).
      exists (f :: reg), rest. split; [reflexivity|]. split; [now constructor|].
      split; [|exact Hr]. rewrite Hc. simpl. now rewrite <- !app_assoc.
Qed.

(** C1: when the stanzas parse, [setup] returns; it fails, with the
    error that gives the bound and the count, as soon as a stanza has
    more than 15 destinations, and the startup hook of such a stanza is
    not among the hooks it has registered (which are those of a prefix
    of the stanzas); when every stanza has at most 15 destinations there
    is no error and every stanza has its startup hook. *)
Theorem setup_bounds_targets (fuel : nat) (c : Controller) (d : Dispenser)
    (fs : list Forward) :
  parseForward W fuel (disp c) = Some (d, Ok fs) ->
  exists c' err reg rest,
    setup W fuel c = Some (c', err)
    /\ fs = reg ++ rest
    /\ onStartup c' = onStartup c ++ reg
    /\ (forall f, f ∈ fs -> 15 < Len f ->
        (f ∉ reg)
        /\ exists g, g ∈ fs /\ 15 < Len g
             /\ err = Some (PluginError "forward"
                              (Errorf "more than %d TOs configured: %d"
                                 [ArgZ 15; ArgZ (Len g)])))
    /\ (Forall (fun f => Len f <= 15) fs -> err = None /\ reg = fs).
Proof.
  intros HP. unfold setup. rewrite HP.
  set (c0 := mkController d (plugins c) (onStartup c) (onShutdown c)).
  destruct (register_spec fs c0) as (reg & rest & Hfs & Hreg & Hc & Hr).
  destruct (register fs c0) as [c' err] eqn:E. simpl in Hc, Hr.
  exists c', err, reg, rest. split; [reflexivity|]. split; [assumption|].
  split; [now rewrite Hc|]. unfold max in *. split.
  - intros f Hin Hbig. split.
    + intros Hf. rewrite Forall_forall in Hreg. specialize (Hreg _ Hf). lia.
    + destruct rest as [|g rest].
      * rewrite app_nil_r in Hfs. subst reg.
        rewrite Forall_forall in Hreg. specialize (Hreg _ Hin). lia.
      * destruct Hr as [Hg ->]. exists g. split; [|auto].
        rewrite Hfs. apply elem_of_app. right. apply list_elem_of_here.
  - intros Hall. destruct rest as [|g rest].
    + rewrite app_nil_r in Hfs. auto.
    + destruct Hr as [Hg _]. rewrite Forall_forall in Hall.
      assert (Hin : g ∈ fs).
      { rewrite Hfs. apply elem_of_app. right. apply list_elem_of_here. }
      specialize (Hall _ Hin). lia.
Qed.

(** *** Fuel

    The fuel only bounds the loops: a result obtained with some fuel is
    the result with any larger fuel. *)

Lemma blocks_mono k k' d f r :
  blocks W k d f = Some r -> (k <= k')%nat -> blocks W k' d f = Some r.
Proof.
  revert k' d f. induction k as [|k IH]; intros k' d f; [discriminate|].
  destruct k' as [|k']; [lia|]. cbn [blocks].
  destruct (NextBlock d) as [[] d1]; [|auto].
  destruct (parseBlock W d1 f) as [[d2 f2] [e|]]; [auto|].
  intros H Hle. apply IH; [assumption|lia].
Qed.

Lemma parseStanza_mono k k' d r :
  parseStanza W k d = Some r -> (k <= k')%nat -> parseStanza W k' d = Some r.
Proof.
  unfold parseStanza. intros H Hle.
  destruct (Args 1 d) as [[ok vals] d1].
  destruct (negb ok); [assumption|].
  destruct (RemainingArgs d1) as [to d2].
  destruct (length to =? 0)%nat; [assumption|].
  destruct (HostPortOrFile W to) as [toHosts|e]; [|assumption].
  destruct (addProxies W toHosts 0 _ _) as [[f3 transports] [e|]]; [assumption|].
  destruct (blocks W k d2 f3) as [r1|] eqn:E; [|discriminate].
  now rewrite (blocks_mono _ _ _ _ _ E Hle).
Qed.

Lemma stanzas_mono fuel fuel' k k' d fs i r :
  stanzas W fuel k d fs i = Some r ->
  (fuel <= fuel')%nat -> (k <= k')%nat ->
  stanzas W fuel' k' d fs i = Some r.
Proof.
  revert k' d fs i. induction k as [|k IH]; intros k' d fs i; [discriminate|].
  destruct k' as [|k']; [lia|]. cbn [stanzas].
  destruct (Next d) as [[] d1]; [|auto].
  destruct (parseStanza W fuel d1) as [r1|] eqn:E; [|discriminate].
  intros H Hf Hk. rewrite (parseStanza_mono _ _ _ _ E Hf).
  destruct r1 as [[d2 f] [e|]]; [assumption|]. apply IH; [assumption..|lia].
Qed.

Lemma setup_mono fuel fuel' c r :
  setup W fuel c = Some r -> (fuel <= fuel')%nat -> setup W fuel' c = Some r.
Proof.
  unfold setup, parseForward. intros H Hle.
  destruct (stanzas W fuel fuel (disp c) [] 0) as [r1|] eqn:E; [|discriminate].
  now rewrite (stanzas_mono _ _ _ _ _ _ _ _ E Hle Hle).
Qed.

End SetupProperties.

(** ** The properties on the sample configurations *)



(** C2, as stated, fails: the lines [a/b] and [one two] are no comments
    and add nothing, and of the five lines of [Sample.blocklist] that
    are neither empty nor comments three add a name. *)
Lemma except_file_skips_lines :
  ignored (scanLine Sample.world Sample.new (string_to_bytes "a/b")) = []
  /\ ignored (scanLine Sample.world Sample.new (string_to_bytes "one two")) = []
  /\ ignored (fold_left (scanLine Sample.world) Sample.blocklist Sample.new)
     = ["example.org."; "internal.example."; "example.net."].
Proof. vm_compute. repeat split. Qed.

(** [except_file blocklist] in [Sample.both_hints]. *)
Lemma except_file_lines_witness :
  parseBlock Sample.world (Sample.at_token Sample.both_hints 12) Sample.new
  = (Sample.at_token Sample.both_hints 13,
     fold_left (scanLine Sample.world) Sample.blocklist Sample.new, None).
Proof.
  exact (proj1 (except_file_lines Sample.world
                  (Sample.at_token Sample.both_hints 12)
                  (Sample.at_token Sample.both_hints 13)
                  Sample.new "blocklist" Sample.blocklist
                  eq_refl eq_refl eq_refl)).
Defined.

(** The destination [grpc://10.0.0.2] of [Sample.grpc_target]. *)
Lemma destinations_checked_witness :
  exists pre bad post,
    ["10.0.0.1"; "grpc://10.0.0.2"] = pre ++ bad :: post
    /\ Forall (fun h => transportOf Sample.world h = "dns"
                        \/ transportOf Sample.world h = "tls") pre
    /\ transportOf Sample.world bad <> "dns"
    /\ transportOf Sample.world bad <> "tls"
    /\ parseStanza Sample.world 5 (Sample.at_directive Sample.grpc_target)
       = Some (Sample.at_argument Sample.grpc_target 3,
               set_proxies (set_from (New Sample.world) (Normalize Sample.world "."))
                 (proxies (New Sample.world) ++ map (proxyFor Sample.world) pre),
               Some (Errorf "'%s' is not supported as a destination protocol in forward: %s"
                       [ArgS (transportOf Sample.world bad); ArgS bad])).
Proof.
  apply (proj1 (destinations_checked Sample.world 5
                  (Sample.at_directive Sample.grpc_target)
                  (Sample.at_argument Sample.grpc_target 1)
                  (Sample.at_argument Sample.grpc_target 3)
                  "." ["10.0.0.1"; "grpc://10.0.0.2"]
                  ["10.0.0.1"; "grpc://10.0.0.2"]
                  eq_refl eq_refl ltac:(discriminate) eq_refl)
           "grpc://10.0.0.2").
  - apply list_elem_of_further, list_elem_of_here.
  - discriminate.
  - discriminate.
Defined.

(** The zone and the exclusions of [Sample.both_hints]. *)
Lemma stored_names_normalized_witness :
  normalized Sample.world (from Sample.both_stanza)
  /\ Forall (normalized Sample.world) (ignored Sample.both_stanza).
Proof.
  destruct (stored_names_normalized Sample.world 7
              (Sample.at_directive Sample.both_hints)
              Sample.both_end Sample.both_stanza)
    as (Hzone & _ & Hall & _).
  - vm_compute. reflexivity.
  - split; [exact Hzone|]. apply Hall. constructor.
Defined.

(** The sixteen destinations of [Sample.sixteen]. *)
Lemma setup_bounds_targets_witness :
  exists c' err reg rest,
    setup Sample.world 3 (Sample.controller Sample.sixteen) = Some (c', err)
    /\ Sample.sixteen_stanzas = reg ++ rest
    /\ onStartup c' = onStartup (Sample.controller Sample.sixteen) ++ reg
    /\ (forall f, f ∈ Sample.sixteen_stanzas -> 15 < Len f ->
        (f ∉ reg)
        /\ exists g, g ∈ Sample.sixteen_stanzas /\ 15 < Len g
             /\ err = Some (PluginError "forward"
                              (Errorf "more than %d TOs configured: %d"
                                 [ArgZ 15; ArgZ (Len g)])))
    /\ (Forall (fun f => Len f <= 15) Sample.sixteen_stanzas ->
        err = None /\ reg = Sample.sixteen_stanzas).
Proof.
  apply (setup_bounds_targets Sample.world 3 (Sample.controller Sample.sixteen)
           Sample.sixteen_end Sample.sixteen_stanzas).
  vm_compute. reflexivity.
Defined.

(** The run of [setup] on [Sample.sixteen]: the error, and no hook. *)
Example setup_sixteen :
  option_map (fun r => (snd r, onStartup (fst r)))
    (setup Sample.world 3 (Sample.controller Sample.sixteen))
  = Some (Some (PluginError "forward"
                  (Errorf "more than %d TOs configured: %d" [ArgZ 15; ArgZ 16])),
          []).
Proof. vm_compute. reflexivity. Qed.

(** * Further properties of setup.go *)

(** ** How the parser moves through the tokens *)

Section Reading.

Context (W : World).

Lemma readOn_refl d : readOn d d.
Proof. unfold readOn. split; [|split; [|split]]; auto. lia. Qed.

Lemma readOn_trans d1 d2 d3 : readOn d1 d2 -> readOn d2 d3 -> readOn d1 d3.
Proof.
  intros (T1 & F1 & C1 & O1) (T2 & F2 & C2 & O2).
  unfold readOn. split; [|split; [|split]]; try congruence; [lia|auto].
Qed.

Lemma readOn_len d d' : readOn d d' -> len d' = len d.
Proof. intros (T & _). unfold len. now rewrite T. Qed.

Lemma readOn_lastText d d' : readOn d d' -> lastText d' = lastText d.
Proof.
  intros H. pose proof (readOn_len _ _ H) as Hl. destruct H as (T & _).
  unfold lastText, Val, tokenAt, moveTo. simpl. now rewrite Hl, T.
Qed.

Lemma readOn_step d :
  cursor d < 0 \/ cursor d < len d - 1 -> readOn d (moveTo d (cursor d + 1)).
Proof.
  intros H. unfold readOn, onToken, len in *. simpl.
  split; [|split; [|split]]; auto; lia.
Qed.

Lemma NextArg_readOn d ok d1 :
  NextArg d = (ok, d1) -> readOn d d1 /\ nesting d1 = nesting d.
Proof.
  intros E. destruct (NextArg_inv _ _ _ E) as [[-> ->]|(-> & -> & Hc)].
  - split; [apply readOn_refl|reflexivity].
  - split; [now apply readOn_step|reflexivity].
Qed.

Lemma Next_inv d ok d1 :
  Next d = (ok, d1) ->
  (ok = false /\ d1 = d /\ len d - 1 <= cursor d)
  \/ (ok = true /\ d1 = moveTo d (cursor d + 1) /\ cursor d < len d - 1).
Proof.
  unfold Next. destruct (Z.ltb_spec (cursor d) (len d - 1)); intros [= <- <-].
  - right. auto.
  - left. auto.
Qed.

Lemma Next_readOn d ok d1 :
  Next d = (ok, d1) -> readOn d d1 /\ nesting d1 = nesting d.
Proof.
  intros E. destruct (Next_inv _ _ _ E) as [(-> & -> & _)|(-> & -> & Hc)].
  - split; [apply readOn_refl|reflexivity].
  - split; [apply readOn_step; now right|reflexivity].
Qed.

Lemma remainingArgs_readOn fuel d acc args d' :
  remainingArgs fuel d acc = (args, d') -> readOn d d' /\ nesting d' = nesting d.
Proof.
  revert d acc. induction fuel as [|k IH]; intros d acc; simpl.
  - intros [= <- <-]. split; [apply readOn_refl|reflexivity].
  - destruct (NextArg d) as [ok d1] eqn:E.
    destruct (NextArg_inv _ _ _ E) as [[-> ->]|(-> & -> & Hc)].
    + intros [= <- <-]. split; [apply readOn_refl|reflexivity].
    + destruct (String.eqb _ "{").
      * intros [= <- <-]. rewrite moveTo_back.
        split; [apply readOn_refl|reflexivity].
      * intros H. apply IH in H as [H1 H2]. split.
        -- eapply readOn_trans; [now apply readOn_step|exact H1].
        -- rewrite H2. reflexivity.
Qed.

Lemma hcOptions_readOn fuel d f d' f' err :
  hcOptions fuel d f = (d', f', err) -> readOn d d' /\ nesting d' = nesting d.
Proof.
  revert d f. induction fuel as [|k IH]; intros d f; simpl.
  - intros [= <- <- <-]. split; [apply readOn_refl|reflexivity].
  - destruct (NextArg d) as [ok d1] eqn:E.
    apply NextArg_readOn in E as [R1 N1]. destruct ok.
    + destruct (String.eqb (Val d1) "no_rec").
      * intros H. apply IH in H as [R2 N2]. split.
        -- eapply readOn_trans; eassumption.
        -- congruence.
      * intros [= <- <- <-]. auto.
    + intros [= <- <- <-]. auto.
Qed.

(** [parseBlock] reads on from the name of the property: it keeps the
    tokens and the block depth, and never moves the cursor back. *)
Lemma parseBlock_readOn d f d' f' err :
  parseBlock W d f = (d', f', err) -> readOn d d' /\ nesting d' = nesting d.
Proof.
  unfold parseBlock, RemainingArgs.
  destruct (NextArg d) as [ok d1] eqn:EN.
  apply NextArg_readOn in EN as [RN NN].
  destruct (remainingArgs (argFuel d) d []) as [args d2] eqn:ER.
  apply remainingArgs_readOn in ER as [RR NR].
  repeat match goal with
         | |- context [hcOptions ?k ?x ?y] =>
             let E := fresh "E" in
             destruct (hcOptions k x y) as [[? ?] ?] eqn:E;
             apply hcOptions_readOn in E as [? ?]
         | |- context [if ?c then _ else _] => destruct c
         | |- context [match ?x with _ => _ end] => destruct x
         end;
    intros [= <- <- <-];
    try (split; [apply readOn_refl|reflexivity]);
    try (split; assumption).
  split; [eapply readOn_trans; [exact RN|eassumption]|congruence].
Qed.

Lemma nest_readOn d n : readOn d (nest d n).
Proof.
  unfold readOn, nest, onToken, len. simpl.
  split; [|split; [|split]]; auto. lia.
Qed.

(** One call of [NextBlock] that goes on either has moved the cursor
    forward, or stands on the last token with nothing changed. *)
Lemma NextBlock_readOn d ok d1 :
  NextBlock d = (ok, d1) ->
  readOn d d1
  /\ (ok = true -> onToken d ->
      cursor d < cursor d1 \/ (d1 = d /\ cursor d = len d - 1)).
Proof.
  unfold NextBlock. destruct (0 <? nesting d).
  - destruct (Next d) as [okn dn] eqn:EN. cbn [snd].
    pose proof (Next_readOn _ _ _ EN) as [RN _].
    destruct (String.eqb (Val dn) "}"); intros [= <- <-].
    + split; [|discriminate]. eapply readOn_trans; [exact RN|apply nest_readOn].
    + split; [exact RN|]. intros _ Hon.
      destruct (Next_inv _ _ _ EN) as [(_ & -> & Hc)|(_ & -> & Hc)].
      * right. split; [reflexivity|]. unfold onToken in Hon. lia.
      * left. simpl. lia.
  - destruct (NextArg d) as [oka da] eqn:EA.
    pose proof (NextArg_readOn _ _ _ EA) as [RA _].
    destruct (NextArg_inv _ _ _ EA) as [[-> ->]|(-> & -> & Hc)]; cbn [negb].
    + intros [= <- <-]. split; [apply readOn_refl|discriminate].
    + destruct (String.eqb (Val (moveTo d (cursor d + 1))) "{"); cbn [negb].
      * destruct (Next (moveTo d (cursor d + 1))) as [okn dn] eqn:EN. cbn [snd].
        pose proof (Next_readOn _ _ _ EN) as [RN _].
        destruct (String.eqb (Val dn) "}"); intros [= <- <-].
        -- split; [eapply readOn_trans; eassumption|discriminate].
        -- split.
           ++ eapply readOn_trans; [exact RA|].
              eapply readOn_trans; [exact RN|apply nest_readOn].
           ++ intros _ _. left. destruct RN as (_ & _ & Hc' & _).
              simpl in *. lia.
      * intros [= <- <-]. rewrite moveTo_back.
        split; [apply readOn_refl|discriminate].
Qed.

Lemma blocks_readOn fuel d f d' f' err :
  blocks W fuel d f = Some (d', f', err) -> readOn d d'.
Proof.
  revert d f. induction fuel as [|k IH]; intros d f; simpl; [discriminate|].
  destruct (NextBlock d) as [ok d1] eqn:EB.
  apply NextBlock_readOn in EB as [RB _]. destruct ok.
  - destruct (parseBlock W d1 f) as [[d2 f2] [e|]] eqn:EP;
      apply parseBlock_readOn in EP as [RP _].
    + intros [= <- <- <-]. eapply readOn_trans; eassumption.
    + intros H. apply IH in H.
      eapply readOn_trans; [exact RB|]. eapply readOn_trans; eassumption.
  - now intros [= <- <- <-].
Qed.

Lemma parseStanza_readOn fuel d d' f err :
  parseStanza W fuel d = Some (d', f, err) -> readOn d d'.
Proof.
  unfold parseStanza.
  destruct (Args 1 d) as [[ok vals] d1] eqn:EA.
  apply Args_one in EA as [EA _]. apply NextArg_readOn in EA as [RA _].
  destruct (negb ok); [now intros [= <- <- <-]|].
  destruct (RemainingArgs d1) as [to d2] eqn:ER.
  apply remainingArgs_readOn in ER as [RR _].
  assert (R2 : readOn d d2) by (eapply readOn_trans; eassumption).
  destruct (length to =? 0)%nat; [now intros [= <- <- <-]|].
  destruct (HostPortOrFile W to) as [toHosts|e]; [|now intros [= <- <- <-]].
  destruct (addProxies W toHosts 0 _ _) as [[f3 transports] [e|]];
    [now intros [= <- <- <-]|].
  destruct (blocks W fuel d2 f3) as [[[d3 f4] [e|]]|] eqn:EB; try discriminate;
    apply blocks_readOn in EB.
  - intros [= <- <- <-]. eapply readOn_trans; eassumption.
  - destruct (finish W _ _ _); [|discriminate].
    intros [= <- <- <-]. eapply readOn_trans; eassumption.
Qed.

End Reading.

(** ** Termination *)

Section Termination.

Context (W : World).

Lemma lastText_Val d : cursor d = len d - 1 -> lastText d = Val d.
Proof. intros H. unfold lastText, Val, tokenAt, moveTo. simpl. now rewrite H. Qed.

Lemma NextArg_last d : onToken d -> cursor d = len d - 1 -> NextArg d = (false, d).
Proof.
  unfold onToken, NextArg. intros Hon Hc.
  destruct (Z.ltb_spec (cursor d) 0); [lia|].
  destruct (Z.leb_spec (len d) (cursor d)); [lia|].
  destruct (Z.ltb_spec (cursor d) (len d - 1)); [lia|]. reflexivity.
Qed.

Lemma RemainingArgs_none d : NextArg d = (false, d) -> RemainingArgs d = ([], d).
Proof.
  intros H. unfold RemainingArgs. destruct (argFuel d); simpl; [reflexivity|].
  now rewrite H.
Qed.

(** On the last token, only the three bare properties are accepted. *)
Lemma parseBlock_last d f :
  onToken d -> cursor d = len d - 1 -> Val d ∉ bare ->
  exists e, parseBlock W d f = (d, f, Some e).
Proof.
  intros Hon Hc Hb.
  pose proof (NextArg_last _ Hon Hc) as HN.
  pose proof (RemainingArgs_none _ HN) as HR.
  unfold bare in Hb. rewrite !not_elem_of_cons in Hb.
  destruct Hb as (H1 & H2 & H3 & _).
  apply String.eqb_neq in H1, H2, H3.
  unfold parseBlock. rewrite HN, HR, H1, H2, H3. cbn [negb length Nat.eqb].
  repeat match goal with
         | |- context [if ?c then _ else _] => destruct c
         end; eauto.
Qed.

(** The loop over the block ends within as many turns as there are
    tokens left, unless the tokens end on a bare property. *)
Lemma blocks_terminates k d f :
  onToken d -> lastText d ∉ bare ->
  (Z.to_nat (len d - 1 - cursor d) < k)%nat ->
  exists r, blocks W k d f = Some r.
Proof.
  revert d f. induction k as [|k IH]; intros d f Hon Hlast Hk; [lia|].
  cbn [blocks]. destruct (NextBlock d) as [ok d1] eqn:EB.
  apply NextBlock_readOn in EB as [RB Hgo].
  destruct ok; [|eauto].
  destruct (parseBlock W d1 f) as [[d2 f2] [e|]] eqn:EP; [eauto|].
  destruct (Hgo eq_refl Hon) as [Hlt|[-> Hend]].
  - pose proof (parseBlock_readOn _ _ _ _ _ _ EP) as [RP _].
    assert (R2 : readOn d d2) by (eapply readOn_trans; eassumption).
    apply IH.
    + now apply R2.
    + now rewrite (readOn_lastText _ _ R2).
    + assert (Hon2 : onToken d2) by now apply R2.
      unfold onToken in Hon, Hon2. rewrite (readOn_len _ _ R2) in *.
      destruct RP as (_ & _ & Hc & _). lia.
  - rewrite (lastText_Val _ Hend) in Hlast.
    destruct (parseBlock_last d f Hon Hend Hlast) as [e He].
    rewrite He in EP. discriminate.
Qed.

(** The last loop of [parseStanza] does not panic when there is a
    transport for every proxy. *)
Lemma finish_total k i f tr :
  (i + k <= length tr)%nat -> (i + k <= length (proxies f))%nat ->
  exists f', finish W (seq i k) tr f = Some f'.
Proof.
  revert i f. induction k as [|k IH]; intros i f Ht Hp; cbn [seq finish]; [eauto|].
  destruct (lookup_lt_is_Some_2 tr i) as [t ->]; [lia|].
  destruct (lookup_lt_is_Some_2 (proxies f) i) as [px ->]; [lia|].
  apply IH; [lia|]. cbn [proxies set_proxies]. rewrite length_insert. lia.
Qed.

(** From a token, [parseStanza] returns with as much fuel as there are
    tokens. *)
Lemma parseStanza_total (fuel : nat) (d : Dispenser) :
  onToken d ->
  lastText d ∉ bare ->
  proxies (New W) = [] ->
  (length (tokens d) <= fuel)%nat ->
  exists d' f err, parseStanza W fuel d = Some (d', f, err) /\ readOn d d'.
Proof.
  intros Hon Hlast Hnew Hfuel.
  assert (Hret : exists r, parseStanza W fuel d = Some r).
  { unfold parseStanza.
    destruct (Args 1 d) as [[ok vals] d1] eqn:EA.
    apply Args_one in EA as [EA _]. apply NextArg_readOn in EA as [RA _].
    destruct (negb ok); [eauto|].
    destruct (RemainingArgs d1) as [to d2] eqn:ER.
    apply remainingArgs_readOn in ER as [RR _].
    assert (R2 : readOn d d2) by (eapply readOn_trans; eassumption).
    destruct (length to =? 0)%nat; [eauto|].
    destruct (HostPortOrFile W to) as [toHosts|e]; [|eauto].
    match goal with
    | |- context [addProxies W toHosts 0 ?g ?t] => set (f2 := g)
    end.
    destruct (addProxies W toHosts 0 f2 _) as [[f3 transports] [e|]] eqn:EP;
      [eauto|].
    pose proof (addProxies_None _ _ _ _ _ _ _ EP) as Hall.
    rewrite addProxies_ok in EP by (rewrite ?length_replicate; auto).
    injection EP as <- <-.
    match goal with
    | |- context [blocks W fuel d2 ?g] =>
        destruct (blocks_terminates fuel d2 g) as [[[d3 f4] err] EB]
    end.
    { now apply R2. }
    { now rewrite (readOn_lastText _ _ R2). }
    { rewrite (readOn_len _ _ R2). destruct R2 as (_ & _ & Hc & _).
      unfold onToken, len in *. lia. }
    rewrite EB. destruct err as [e|]; [eauto|].
    apply extends_blocks in EB as (Hp & _ & _).
    assert (Hp5 : forall g, proxies (withServerName g) = proxies g).
    { intros g. unfold withServerName. now destruct (negb _). }
    fold (withServerName f4).
    destruct (finish_total (length (proxies (withServerName f4))) 0
                (withServerName f4) (map (transportOf W) toHosts))
      as [f6 EF].
    { rewrite Hp5, Hp. cbn [proxies set_proxies].
      replace (proxies match vals with
                       | [] => New W
                       | v :: _ => set_from (New W) v
                       end) with (@nil Proxy)
        by (destruct vals; symmetry; exact Hnew).
      rewrite !length_app, !length_map. simpl. lia. }
    { lia. }
    rewrite EF. eauto. }
  destruct Hret as [[[d' f] err] E]. exists d', f, err. split; [exact E|].
  eapply parseStanza_readOn. exact E.
Qed.

Lemma stanzas_terminates fuel k d fs i :
  -1 <= cursor d ->
  lastText d ∉ bare ->
  proxies (New W) = [] ->
  (length (tokens d) <= fuel)%nat ->
  (Z.to_nat (len d - 1 - cursor d) < k)%nat ->
  exists r, stanzas W fuel k d fs i = Some r.
Proof.
  revert d fs i. induction k as [|k IH]; intros d fs i Hc Hlast Hnew Hfuel Hk; [lia|].
  cbn [stanzas]. destruct (Next d) as [ok d1] eqn:EN.
  pose proof (Next_readOn _ _ _ EN) as [RN _].
  destruct (Next_inv _ _ _ EN) as [(-> & -> & _)|(-> & -> & Hlt)]; [eauto|].
  set (d1 := moveTo d (cursor d + 1)) in *.
  assert (Hon1 : onToken d1) by (unfold onToken, d1, len in *; simpl; lia).
  destruct (parseStanza_total fuel d1 Hon1) as (d2 & f & err & E & R2).
  - now rewrite (readOn_lastText _ _ RN).
  - assumption.
  - destruct RN as (-> & _). assumption.
  - rewrite E. destruct err as [e|]; [eauto|].
    assert (R : readOn d d2) by (eapply readOn_trans; eassumption).
    apply IH.
    + destruct R2 as (_ & _ & Hc2 & _). unfold d1 in Hc2. simpl in Hc2. lia.
    + now rewrite (readOn_lastText _ _ R).
    + assumption.
    + destruct R as (-> & _). assumption.
    + rewrite (readOn_len _ _ R). destruct R2 as (_ & _ & Hc2 & _).
      unfold d1 in Hc2. simpl in Hc2. lia.
Qed.

(** X10: from a directive token, [parseStanza] returns (a stanza or an
    error) with as much fuel as there are tokens, provided the defaults
    have no destination and the tokens do not end on a bare property;
    the dispenser has then read on, and not back. *)
Theorem parseStanza_returns (fuel : nat) (d : Dispenser) :
  onToken d ->
  lastText d ∉ bare ->
  proxies (New W) = [] ->
  (length (tokens d) <= fuel)%nat ->
  exists d' f err, parseStanza W fuel d = Some (d', f, err) /\ readOn d d'.
Proof. apply parseStanza_total. Qed.

(** X14: [setup] returns (with or without an error) with one unit of
    fuel per token and one more, from a dispenser at its start or on a
    token, provided the defaults have no destination and the tokens do
    not end on a bare property. *)
Theorem setup_returns (c : Controller) :
  -1 <= cursor (disp c) ->
  lastText (disp c) ∉ bare ->
  proxies (New W) = [] ->
  exists c' err, setup W (S (length (tokens (disp c)))) c = Some (c', err).
Proof.
  intros Hc Hlast Hnew. unfold setup, parseForward.
  destruct (stanzas_terminates (S (length (tokens (disp c))))
              (S (length (tokens (disp c)))) (disp c) [] 0 Hc Hlast Hnew)
    as [[d [fs|e]] E].
  - lia.
  - unfold len. lia.
  - rewrite E. destruct (register fs _) as [c' err]. eauto.
  - rewrite E. eauto.
Qed.

(** X11: inside a block, on a last token [force_tcp] or [prefer_udp], the
    loop over the block never ends, whatever the fuel. *)
Theorem unclosed_block_spins (d : Dispenser) :
  onToken d ->
  cursor d = len d - 1 ->
  0 < nesting d ->
  Val d = "force_tcp" \/ Val d = "prefer_udp" ->
  forall k f, blocks W k d f = None.
Proof.
  intros Hon Hend Hnest Hv k.
  pose proof (NextArg_last _ Hon Hend) as HN.
  assert (HB : NextBlock d = (true, d)).
  { unfold NextBlock, Next.
    destruct (Z.ltb_spec 0 (nesting d)); [|lia].
    destruct (Z.ltb_spec (cursor d) (len d - 1)); [lia|]. cbn [snd].
    destruct Hv as [-> | ->]; reflexivity. }
  induction k as [|k IH]; intros f; [reflexivity|].
  cbn [blocks]. rewrite HB.
  destruct Hv as [Hv|Hv].
  - enter_block Hv. rewrite HN. apply IH.
  - enter_block Hv. rewrite HN. apply IH.
Qed.

End Termination.

(** ** More on the properties of a block *)

Section MoreBlocks.

Context (W : World).

Lemma set_ignored_id f : set_ignored f (ignored f) = f.
Proof. now destruct f. Qed.

Lemma set_opts_id f : set_opts f (opts f) = f.
Proof. now destruct f. Qed.

Lemma fold_ignore_eq names f :
  fold_left (ignore W) names f
  = set_ignored f (ignored f ++ map (Normalize W) names).
Proof.
  revert f. induction names as [|x names IH]; intros f; simpl.
  - now rewrite app_nil_r, set_ignored_id.
  - rewrite IH. unfold ignore, set_ignored. simpl. now rewrite <- app_assoc.
Qed.

(** X1: [parseBlock] keeps the tokens, the file name and the block depth,
    never moves the cursor back, and leaves it on a token if it was on
    one. *)
Theorem parseBlock_reads_forward (d : Dispenser) (f : Forward) :
  tokens (fst (fst (parseBlock W d f))) = tokens d
  /\ filename (fst (fst (parseBlock W d f))) = filename d
  /\ nesting (fst (fst (parseBlock W d f))) = nesting d
  /\ cursor d <= cursor (fst (fst (parseBlock W d f)))
  /\ (onToken d -> onToken (fst (fst (parseBlock W d f)))).
Proof.
  destruct (parseBlock W d f) as [[d' f'] err] eqn:E.
  apply parseBlock_readOn in E as [(T & F & C & O) N]. cbn [fst]. auto.
Qed.

(** X2: a name that [parseBlock] does not know is an error that reads
    nothing and changes nothing. *)
Theorem unknown_property (d : Dispenser) (f : Forward) :
  Val d ∉ properties ->
  parseBlock W d f = (d, f, Some (Errf d "unknown property '%s'" [ArgS (Val d)])).
Proof.
  unfold properties. rewrite !not_elem_of_cons.
  intros (H1 & H2 & H3 & H4 & H5 & H6 & H7 & H8 & H9 & H10 & H11 & H12 & _).
  apply String.eqb_neq in H1, H2, H3, H4, H5, H6, H7, H8, H9, H10, H11, H12.
  unfold parseBlock.
  now rewrite H1, H2, H3, H4, H5, H6, H7, H8, H9, H10, H11, H12.
Qed.

(** X3: a wrong number of arguments is the argument error of the
    dispenser, and the configuration stays as it was: a property that
    takes a value and has none, [force_tcp] or [prefer_udp] with an
    argument, [except] without a name, [except_file] without exactly one
    file, [tls] with more than three arguments. *)
Theorem wrong_argument_count (d : Dispenser) (f : Forward) :
  (Val d ∈ valued -> NextArg d = (false, d) ->
   parseBlock W d f = (d, f, Some (ArgErr d)))
  /\ (forall d1, Val d = "force_tcp" \/ Val d = "prefer_udp" ->
        NextArg d = (true, d1) ->
        parseBlock W d f = (d1, f, Some (ArgErr d1)))
  /\ (forall d1, Val d = "except" -> RemainingArgs d = ([], d1) ->
        parseBlock W d f = (d1, f, Some (ArgErr d1)))
  /\ (forall args d1, Val d = "except_file" -> RemainingArgs d = (args, d1) ->
        length args <> 1%nat ->
        parseBlock W d f = (d1, f, Some (ArgErr d1)))
  /\ (forall args d1, Val d = "tls" -> RemainingArgs d = (args, d1) ->
        (3 < length args)%nat ->
        parseBlock W d f = (d1, f, Some (ArgErr d1))).
Proof.
  split; [|split; [|split; [|split]]].
  - unfold valued. rewrite !elem_of_cons, elem_of_nil. intros Hv HN.
    destruct Hv as [Hv|[Hv|[Hv|[Hv|[Hv|[Hv|[Hv|[]]]]]]]];
      enter_block Hv; now rewrite HN.
  - intros d1 [Hv|Hv] HN; enter_block Hv; now rewrite HN.
  - intros d1 Hv HR. enter_block Hv. now rewrite HR.
  - intros args d1 Hv HR Hl. enter_block Hv. rewrite HR.
    destruct args as [|a [|b args]]; simpl in Hl; try reflexivity. lia.
  - intros args d1 Hv HR Hl. enter_block Hv. rewrite HR.
    destruct (Nat.ltb_spec 3 (length args)); [reflexivity|lia].
Qed.

(** X4: [except] appends the normalized names behind the exclusions
    already there, in the order given, and changes nothing else. *)
Theorem except_appends (d d1 : Dispenser) (f : Forward) (names : list string) :
  Val d = "except" ->
  RemainingArgs d = (names, d1) ->
  names <> [] ->
  parseBlock W d f
  = (d1, set_ignored f (ignored f ++ map (Normalize W) names), None).
Proof.
  intros Hv HR Hn. enter_block Hv. rewrite HR.
  destruct names as [|x names]; [contradiction|]. cbn [length Nat.eqb].
  now rewrite fold_ignore_eq.
Qed.

(** [hcOptions] writes [opts] only, and there only the flag, which it
    can clear but not set. *)
Lemma hcOptions_opts fuel d f d' f' err :
  hcOptions fuel d f = (d', f', err) ->
  exists rd, f' = set_opts f (set_hcRecursionDesired (opts f) rd)
             /\ (rd = true -> hcRecursionDesired (opts f) = true).
Proof.
  revert d f. induction fuel as [|k IH]; intros d f; simpl.
  - intros [= <- <- <-]. exists (hcRecursionDesired (opts f)).
    split; [|auto]. destruct f as [? ? ? ? ? ? ? ? ? ? ? [] ? ?]. reflexivity.
  - destruct (NextArg d) as [[] d1].
    + destruct (String.eqb (Val d1) "no_rec").
      * intros H. apply IH in H as (rd & -> & Hrd). exists rd. split.
        -- reflexivity.
        -- intros Ht. apply Hrd in Ht. discriminate Ht.
      * intros [= <- <- <-]. exists (hcRecursionDesired (opts f)).
        split; [|auto]. destruct f as [? ? ? ? ? ? ? ? ? ? ? [] ? ?]. reflexivity.
    + intros [= <- <- <-]. exists (hcRecursionDesired (opts f)).
      split; [|auto]. destruct f as [? ? ? ? ? ? ? ? ? ? ? [] ? ?]. reflexivity.
Qed.

(** X7: the options of [health_check]. With [no_rec] alone behind the
    interval, the interval is stored and the probes lose the
    recursion-desired flag. Any other word is an error, raised after the
    interval has been written. Whatever follows the interval, the
    property never sets the flag and never touches the transport hints. *)
Theorem health_check_options (d d1 : Dispenser) (f : Forward) (dur : Z) :
  Val d = "health_check" ->
  NextArg d = (true, d1) ->
  ParseDuration W (Val d1) = Ok dur ->
  0 <= dur ->
  (forall d2, NextArg d1 = (true, d2) -> Val d2 = "no_rec" ->
     NextArg d2 = (false, d2) ->
     parseBlock W d f
     = (d2, set_opts (set_hcInterval f dur)
              (set_hcRecursionDesired (opts f) false), None))
  /\ (forall d2, NextArg d1 = (true, d2) -> Val d2 <> "no_rec" ->
        parseBlock W d f
        = (d2, set_hcInterval f dur,
           Some (Errorf "health_check: unknown option %s" [ArgS (Val d2)])))
  /\ forceTCP (opts (snd (fst (parseBlock W d f)))) = forceTCP (opts f)
  /\ preferUDP (opts (snd (fst (parseBlock W d f)))) = preferUDP (opts f)
  /\ (hcRecursionDesired (opts (snd (fst (parseBlock W d f)))) = true ->
      hcRecursionDesired (opts f) = true).
Proof.
  intros Hv HN HP Hd.
  assert (E : parseBlock W d f = hcOptions (argFuel d1) d1 (set_hcInterval f dur)).
  { enter_block Hv. rewrite HN. cbn [negb]. rewrite HP. now zcases. }
  rewrite E. clear E. split; [|split].
  - intros d2 HN1 Hno HN2.
    destruct (NextArg_inv _ _ _ HN1) as [[? _]|(_ & -> & Hc)]; [discriminate|].
    rewrite (argFuel_step _ Hc). cbn [hcOptions]. rewrite HN1, Hno.
    cbn [String.eqb Ascii.eqb Bool.eqb andb].
    destruct (argFuel (moveTo d1 (cursor d1 + 1))); cbn [hcOptions];
      [reflexivity|]. now rewrite HN2.
  - intros d2 HN1 Hno.
    destruct (NextArg_inv _ _ _ HN1) as [[? _]|(_ & -> & Hc)]; [discriminate|].
    rewrite (argFuel_step _ Hc). cbn [hcOptions]. rewrite HN1.
    apply String.eqb_neq in Hno. now rewrite Hno.
  - destruct (hcOptions _ _ _) as [[d' f'] err] eqn:EH. cbn [fst snd].
    apply hcOptions_opts in EH as (rd & -> & Hrd). cbn.
    repeat split. intros ->. now apply Hrd.
Qed.

End MoreBlocks.

(** ** More on the exclusion file *)

Section Lines.

Context (W : World).

Lemma byteZ_range b : 0 <= byteZ b < 256.
Proof. unfold byteZ. pose proof (Byte.to_N_bounded b). lia. Qed.

Lemma blank_ascii b : blank b = true -> byteZ b < 128.
Proof.
  unfold blank. intros H. apply orb_true_iff in H as [H|H].
  - apply andb_true_iff in H as [_ H]. apply Z.leb_le in H. lia.
  - apply Z.eqb_eq in H. lia.
Qed.

Lemma IsSpace_ascii b : byteZ b < 128 -> IsSpace (byteZ b) = blank b.
Proof.
  intros H. unfold IsSpace, blank.
  destruct (Z.leb_spec (byteZ b) 255); [|lia].
  destruct (Z.eqb_spec (byteZ b) 133); [lia|].
  destruct (Z.eqb_spec (byteZ b) 160); [lia|].
  now rewrite !orb_false_r.
Qed.

Lemma plain_ascii b :
  plain b = true -> byteZ b < 128 /\ blank b = false /\ b <> hash.
Proof.
  unfold plain. intros H.
  apply andb_true_iff in H as [H H3]. apply andb_true_iff in H as [H1 H2].
  apply Z.ltb_lt in H1. apply negb_true_iff in H2, H3.
  repeat split; auto. intros ->. discriminate H3.
Qed.

(** [bytes.Fields] on an ASCII byte. *)
Lemma fieldsFrom_ascii b t cur :
  byteZ b < 128 ->
  fieldsFrom (b :: t) 0 cur
  = if blank b then close cur ++ fieldsFrom t 0 None
    else fieldsFrom t 0 (Some (default [] cur ++ [b])).
Proof.
  intros H. cbn [fieldsFrom]. unfold DecodeRune.
  destruct (Z.ltb_spec (byteZ b) 128); [|lia].
  now rewrite (IsSpace_ascii _ H).
Qed.

Lemma blanks_close ws cur :
  Forall (fun b => blank b = true) ws -> fieldsFrom ws 0 cur = close cur.
Proof.
  intros H. revert cur. induction H as [|b ws Hb _ IH]; intros cur; [reflexivity|].
  rewrite fieldsFrom_ascii by now apply blank_ascii.
  rewrite Hb, IH. simpl. apply app_nil_r.
Qed.

Lemma blanks_skip ws t :
  Forall (fun b => blank b = true) ws ->
  fieldsFrom (ws ++ t) 0 None = fieldsFrom t 0 None.
Proof.
  induction 1 as [|b ws Hb _ IH]; [reflexivity|].
  cbn [app]. rewrite fieldsFrom_ascii by now apply blank_ascii.
  now rewrite Hb.
Qed.

Lemma plain_read name t cur :
  Forall (fun b => plain b = true) name ->
  fieldsFrom (name ++ t) 0 (Some cur) = fieldsFrom t 0 (Some (cur ++ name)).
Proof.
  intros H. revert cur. induction H as [|b name Hb _ IH]; intros cur.
  - now rewrite app_nil_r.
  - apply plain_ascii in Hb as (Ha & Hb & _).
    cbn [app]. rewrite fieldsFrom_ascii, Hb by assumption.
    cbn [default]. rewrite IH. now rewrite <- app_assoc.
Qed.

(** A word between blanks is the one field of the line. *)
Lemma Fields_word ws1 name ws2 :
  Forall (fun b => blank b = true) ws1 ->
  Forall (fun b => plain b = true) name -> name <> [] ->
  Forall (fun b => blank b = true) ws2 ->
  Fields (ws1 ++ name ++ ws2) = [name].
Proof.
  intros H1 Hn Hne H2. unfold Fields. rewrite blanks_skip by assumption.
  destruct name as [|b name]; [contradiction|].
  apply Forall_cons in Hn as [Hb Hn].
  apply plain_ascii in Hb as (Ha & Hb & _).
  cbn [app]. rewrite fieldsFrom_ascii, Hb by assumption.
  cbn [default app]. rewrite plain_read by assumption.
  now rewrite blanks_close.
Qed.

Lemma no_hash (P : byte -> bool) l :
  Forall (fun b => P b = true) l -> P hash = false -> hash ∉ l.
Proof.
  intros H Hh Hin. rewrite Forall_forall in H. apply H in Hin. congruence.
Qed.

Lemma scanLine_comment f pre post :
  hash ∉ pre -> scanLine W f (pre ++ hash :: post) = scanLine W f pre.
Proof.
  intros Hpre. unfold scanLine.
  rewrite Index_first, Index_absent by assumption.
  destruct (Z.leb_spec 0 (Z.of_nat (length pre))); [|lia].
  cbn [Z.leb]. now rewrite slice_to_prefix.
Qed.

Lemma scanLine_clean f line :
  hash ∉ line ->
  scanLine W f line
  = match Fields line with
    | [field] =>
        match Split (bytes_to_string field) "/" with
        | [domain] => ignore W f domain
        | [_; domain; _] => ignore W f domain
        | _ => f
        end
    | _ => f
    end.
Proof. intros H. unfold scanLine. now rewrite Index_absent by assumption. Qed.

(** X6: a line that is empty, blank or only a comment adds nothing; a
    line that holds one word of plain ASCII without '/', with blanks
    around it or a comment behind it, adds that word, normalized. *)
Theorem except_file_plain_lines (f : Forward) :
  (forall ws rest,
     Forall (fun b => blank b = true) ws ->
     rest = [] \/ (exists c, rest = hash :: c) ->
     scanLine W f (ws ++ rest) = f)
  /\ (forall ws1 name ws2 rest,
        Forall (fun b => blank b = true) ws1 ->
        Forall (fun b => plain b = true) name -> name <> [] ->
        Forall (fun b => blank b = true) ws2 ->
        rest = [] \/ (exists c, rest = hash :: c) ->
        occurrences "/" (bytes_to_string name) = 0%nat ->
        scanLine W f (ws1 ++ name ++ ws2 ++ rest)
        = ignore W f (bytes_to_string name)).
Proof.
  assert (Hb : blank hash = false) by reflexivity.
  assert (Hp : plain hash = false) by reflexivity.
  split.
  - intros ws rest Hws Hrest.
    assert (Hclean : scanLine W f ws = f).
    { rewrite scanLine_clean by (eapply no_hash; eassumption).
      unfold Fields. now rewrite blanks_close. }
    destruct Hrest as [-> | [c ->]].
    + now rewrite app_nil_r.
    + rewrite scanLine_comment by (eapply no_hash; eassumption). exact Hclean.
  - intros ws1 name ws2 rest H1 Hn Hne H2 Hrest Hs.
    assert (Hno : hash ∉ ws1 ++ name ++ ws2).
    { rewrite !not_elem_of_app. repeat split; eapply no_hash; eassumption. }
    assert (Hclean : scanLine W f (ws1 ++ name ++ ws2)
                     = ignore W f (bytes_to_string name)).
    { rewrite scanLine_clean by assumption.
      rewrite Fields_word by assumption. now rewrite Split_whole. }
    destruct Hrest as [-> | [c ->]].
    + now rewrite app_nil_r.
    + replace (ws1 ++ name ++ ws2 ++ hash :: c)
        with ((ws1 ++ name ++ ws2) ++ hash :: c)
        by now rewrite <- !app_assoc.
      now rewrite scanLine_comment.
Qed.

Lemma scanLine_cases f line :
  scanLine W f line = f \/ exists domain, scanLine W f line = ignore W f domain.
Proof.
  unfold scanLine.
  repeat match goal with
         | |- context [match ?x with _ => _ end] => destruct x
         end; eauto.
Qed.

Lemma scan_names lines f :
  exists names,
    fold_left (scanLine W) lines f = fold_left (ignore W) names f
    /\ (length names <= length lines)%nat.
Proof.
  revert f. induction lines as [|l lines IH]; intros f.
  - exists []. simpl. auto.
  - cbn [fold_left]. destruct (scanLine_cases f l) as [-> | [dom ->]].
    + destruct (IH f) as (names & E & Hl). exists names. simpl. split; [exact E|lia].
    + destruct (IH (ignore W f dom)) as (names & E & Hl).
      exists (dom :: names). simpl. split; [exact E|lia].
Qed.

(** X5: [except_file] passes on the error of opening the file and then
    changes nothing; otherwise it appends normalized names behind the
    exclusions already there, at most one per line of the file, and
    changes nothing else. *)
Theorem except_file_bounded (d d1 : Dispenser) (f : Forward) (name : string) :
  Val d = "except_file" ->
  RemainingArgs d = ([name], d1) ->
  (forall e, Open W name = Err e -> parseBlock W d f = (d1, f, Some e))
  /\ (forall lines, Open W name = Ok lines ->
      exists names,
        parseBlock W d f
        = (d1, set_ignored f (ignored f ++ map (Normalize W) names), None)
        /\ (length names <= length lines)%nat).
Proof.
  intros Hv HR. split.
  - intros e HO. enter_block Hv. now rewrite HR, HO.
  - intros lines HO. destruct (scan_names lines f) as (names & E & Hl).
    exists names. split; [|exact Hl].
    enter_block Hv. rewrite HR, HO, E. now rewrite fold_ignore_eq.
Qed.

End Lines.

(** ** More on stanzas and on setup *)

Section MoreStanzas.

Context (W : World).

Lemma stanzas_index fuel k d fs i d' fs' :
  stanzas W fuel k d fs i = Some (d', Ok fs') ->
  i = Z.of_nat (length fs) ->
  (forall j f, fs !! j = Some f -> index f = Z.of_nat j) ->
  forall j f, fs' !! j = Some f -> index f = Z.of_nat j.
Proof.
  revert d fs i. induction k as [|k IH]; intros d fs i; [discriminate|].
  cbn [stanzas]. destruct (Next d) as [[] d1].
  - destruct (parseStanza W fuel d1) as [[[d2 f] [e|]]|]; try discriminate.
    intros H Hi Hfs. eapply IH; [exact H| |].
    + rewrite length_app. simpl. lia.
    + intros j g Hj. apply lookup_app_Some in Hj as [Hj|[Hge Hj]].
      * now apply Hfs.
      * destruct (j - length fs)%nat as [|n] eqn:En; [|destruct n; discriminate].
        injection Hj as <-. cbn [index set_index]. lia.
  - intros [= <- <-] _ Hfs. exact Hfs.
Qed.

(** X12: the stanzas that [parseForward] returns are numbered in the order
    of the file, from 0. *)
Theorem parseForward_index (fuel : nat) (d d' : Dispenser) (fs : list Forward) :
  parseForward W fuel d = Some (d', Ok fs) ->
  forall j f, fs !! j = Some f -> index f = Z.of_nat j.
Proof.
  intros H. eapply stanzas_index; [exact H|reflexivity|].
  intros j f Hj. discriminate.
Qed.

(** X8: a stanza without a zone, without a destination, or with
    destinations that the host parser refuses fails before any proxy is
    made, whatever the fuel. *)
Theorem stanza_argument_errors (fuel : nat) (d : Dispenser) :
  (NextArg d = (false, d) ->
   parseStanza W fuel d = Some (d, New W, Some (ArgErr d)))
  /\ (forall d1 d2, NextArg d = (true, d1) -> RemainingArgs d1 = ([], d2) ->
      parseStanza W fuel d
      = Some (d2, set_from (New W) (Normalize W (Val d1)), Some (ArgErr d2)))
  /\ (forall d1 to d2 e,
        NextArg d = (true, d1) -> RemainingArgs d1 = (to, d2) -> to <> [] ->
        HostPortOrFile W to = Err e ->
        parseStanza W fuel d
        = Some (d2, set_from (New W) (Normalize W (Val d1)), Some e)).
Proof.
  split; [|split].
  - intros HN. unfold parseStanza. cbn [Args]. now rewrite HN.
  - intros d1 d2 HN HR. unfold parseStanza. cbn [Args]. rewrite HN.
    cbn [negb]. now rewrite HR.
  - intros d1 to d2 e HN HR Hto HH. unfold parseStanza. cbn [Args]. rewrite HN.
    cbn [negb]. rewrite HR. destruct to as [|t0 to]; [contradiction|].
    cbn [length Nat.eqb]. now rewrite HH.
Qed.

Lemma atoi_range s n :
  intSize W <= 64 -> atoi W s = Ok n -> - 2 ^ 63 <= n < 2 ^ 63.
Proof.
  intros Hsz. unfold atoi. destruct (Atoi (intSize W) s) as [m|] eqn:E; [|discriminate].
  intros [= <-]. apply Atoi_range in E. unfold minInt, maxInt in E.
  assert (2 ^ (intSize W - 1) <= 2 ^ 63).
  { destruct (Z.le_gt_cases 0 (intSize W - 1)).
    - apply Z.pow_le_mono_r; lia.
    - rewrite Z.pow_neg_r by lia. lia. }
  lia.
Qed.

(** The checks of [parseBlock] keep the numeric settings in range. *)
Lemma settled_parseBlock f0 d f d' f' err :
  intSize W <= 64 ->
  settled f0 f ->
  parseBlock W d f = (d', f', err) ->
  settled f0 f'.
Proof.
  intros Hsz Hs. unfold parseBlock.
  repeat match goal with
         | |- context [hcOptions ?k ?x ?y] =>
             let E := fresh "E" in
             destruct (hcOptions k x y) as [[? ?] ?] eqn:E;
             apply hcOptions_opts in E as (? & -> & _)
         | |- context [fold_left (ignore W) ?n ?g] =>
             rewrite (fold_ignore_eq W n g)
         | |- context [fold_left (scanLine W) ?l ?g] =>
             let E := fresh "E" in
             destruct (scan_names W l g) as (? & E & _);
             rewrite E, fold_ignore_eq; clear E
         | |- context [if ?c then _ else _] => destruct c eqn:?
         | |- context [match ?x with _ => _ end] => destruct x eqn:?
         end;
    intros [= <- <- <-]; try exact Hs;
    repeat match goal with
           | H : (_ <? _) = false |- _ => apply Z.ltb_ge in H
           | H : atoi W _ = Ok _ |- _ => apply (atoi_range _ _ Hsz) in H
           end;
    unfold settled, Len in *; cbn;
    destruct Hs as (H1 & H2 & H3 & H4 & H5);
    repeat split; try assumption; right;
    first [ assumption
          | lia
          | rewrite int64_small by assumption; assumption
          | unfold uint32; apply Z.mod_pos_bound; lia ].
Qed.

Lemma settled_blocks f0 fuel d f d' f' err :
  intSize W <= 64 ->
  settled f0 f ->
  blocks W fuel d f = Some (d', f', err) ->
  settled f0 f'.
Proof.
  intros Hsz. revert d f. induction fuel as [|k IH]; intros d f Hs; simpl;
    [discriminate|].
  destruct (NextBlock d) as [[] d1].
  - destruct (parseBlock W d1 f) as [[d2 f2] [e|]] eqn:E;
      apply (settled_parseBlock f0 _ _ _ _ _ Hsz Hs) in E.
    + now intros [= <- <- <-].
    + now apply IH.
  - now intros [= <- <- <-].
Qed.

(** X9: in a stanza that parses, where [int] has at most 64 bits, each
    numeric setting is the default or a value in range: the failure
    threshold within a uint32, the two durations and the concurrency
    limit not negative, the retry limit between 0 and the number of
    destinations. *)
Theorem stanza_settings (fuel : nat) (d d3 : Dispenser) (f : Forward) :
  parseStanza W fuel d = Some (d3, f, None) ->
  intSize W <= 64 ->
  (maxfails f = maxfails (New W) \/ 0 <= maxfails f < 2 ^ 32)
  /\ (hcInterval f = hcInterval (New W) \/ 0 <= hcInterval f)
  /\ (expire f = expire (New W) \/ 0 <= expire f)
  /\ (maxConcurrent f = maxConcurrent (New W) \/ 0 <= maxConcurrent f)
  /\ (maxFailedTries f = maxFailedTries (New W)
      \/ 0 <= maxFailedTries f <= Len f).
Proof.
  intros Hok Hsz.
  apply parseStanza_result in Hok
    as (v & d1 & to & d2 & toHosts & f4 & _ & _ & _ & _ & _ & _ & HB & ->).
  pose proof (extends_blocks _ _ _ _ _ _ _ HB) as (Hp & _ & _).
  apply (settled_blocks (New W)) in HB; [|exact Hsz|].
  - unfold settled, Len in *. cbn [proxies set_proxies] in *.
    rewrite Hp, length_map in HB. rewrite length_map.
    unfold withServerName. now destruct (negb _).
  - unfold settled, Len. cbn. repeat split; now left.
Qed.

(** X15: a stanza without a block. When the destinations are accepted
    and no brace follows them, [parseStanza] returns, with one unit of
    fuel or more, the defaults with the normalized zone and one proxy
    per destination, on which the default expiry and flag (and, for a
    TLS destination, the default TLS configuration) have been set. *)
Theorem stanza_without_block (fuel : nat) (d d1 d2 d3 : Dispenser)
    (v : string) (to toHosts : list string) :
  Args 1 d = (true, [v], d1) ->
  RemainingArgs d1 = (to, d2) ->
  to <> [] ->
  HostPortOrFile W to = Ok toHosts ->
  Forall (fun host => transportOf W host = "dns" \/ transportOf W host = "tls")
    toHosts ->
  NextBlock d2 = (false, d3) ->
  proxies (New W) = [] ->
  parseStanza W (S fuel) d
  = Some (d3,
          set_proxies (withServerName (set_from (New W) (Normalize W v)))
            (map (fun h => finished W (withServerName (set_from (New W) (Normalize W v)))
                             (transportOf W h) (proxyFor W h)) toHosts),
          None).
Proof.
  intros HA HR Hto HH Hall HB Hnew.
  assert (Hall' : Forall (fun h => allowed (transportOf W h) = true) toHosts).
  { eapply Forall_impl; [exact Hall|]. intros h Hh. now apply allowed_iff. }
  assert (Hret : exists f, parseStanza W (S fuel) d = Some (d3, f, None)).
  { unfold parseStanza. rewrite HA. cbn [negb]. rewrite HR.
    destruct to as [|t0 to]; [contradiction|]. cbn [length Nat.eqb].
    rewrite HH.
    rewrite addProxies_ok by (rewrite ?length_replicate; auto).
    cbn [blocks]. rewrite HB.
    match goal with
    | |- context [finish W ?idx ?tr ?g] =>
        destruct (finish_total W (length (proxies g)) 0 g tr) as [f6 EF]
    end.
    - destruct (negb _); cbn [proxies set_proxies set_tlsConfig set_from];
        rewrite Hnew, !length_app, !length_map; simpl; lia.
    - lia.
    - rewrite EF. eauto. }
  destruct Hret as [f Hf]. rewrite Hf. do 3 f_equal.
  apply parseStanza_result in Hf
    as (v' & d1' & to' & d2' & hosts' & f4 & HA' & HR' & _ & HH' & _ & _ & HB' & ->).
  rewrite HA in HA'. injection HA' as <- <-.
  rewrite HR in HR'. injection HR' as <- <-.
  rewrite HH in HH'. injection HH' as <-.
  cbn [blocks] in HB'. rewrite HB in HB'. injection HB' as <-.
  unfold withServerName. cbn [tlsServerName set_proxies].
  now destruct (negb _).
Qed.

End MoreStanzas.

(** ** The further properties on the sample configurations *)

Lemma parseStanza_returns_witness :
  exists d' f err,
    parseStanza Sample.world 15 (Sample.at_directive Sample.both_hints)
    = Some (d', f, err)
    /\ readOn (Sample.at_directive Sample.both_hints) d'.
Proof.
  apply (parseStanza_returns Sample.world 15 (Sample.at_directive Sample.both_hints)).
  - unfold onToken. vm_compute. split; [discriminate|reflexivity].
  - vm_compute. intros H. repeat (inversion H as [| ? ? ? H']; clear H; rename H' into H).
  - reflexivity.
  - vm_compute. lia.
Defined.

Lemma setup_returns_witness :
  exists c' err,
    setup Sample.world
      (S (length (tokens (disp (Sample.controller Sample.both_hints)))))
      (Sample.controller Sample.both_hints)
    = Some (c', err).
Proof.
  apply (setup_returns Sample.world (Sample.controller Sample.both_hints)).
  - vm_compute. discriminate.
  - vm_compute. intros H. repeat (inversion H as [| ? ? ? H']; clear H; rename H' into H).
  - reflexivity.
Defined.

Lemma unclosed_block_spins_witness :
  blocks Sample.world 1000 (Sample.at_token Sample.unclosed 4) Sample.new = None.
Proof.
  apply (unclosed_block_spins Sample.world (Sample.at_token Sample.unclosed 4)).
  - unfold onToken. vm_compute. split; [discriminate|reflexivity].
  - reflexivity.
  - reflexivity.
  - left. reflexivity.
Defined.

Lemma unknown_property_witness :
  parseBlock Sample.world (Sample.at_token Sample.odd_block 18) Sample.new
  = (Sample.at_token Sample.odd_block 18, Sample.new,
     Some (Errf (Sample.at_token Sample.odd_block 18)
             "unknown property '%s'" [ArgS "bogus"])).
Proof.
  apply (unknown_property Sample.world (Sample.at_token Sample.odd_block 18)).
  vm_compute. intros H.
  repeat (inversion H as [| ? ? ? H']; clear H; rename H' into H).
Defined.

(** [max_fails] alone on its line, and [force_tcp now]. *)
Lemma wrong_argument_count_witness :
  parseBlock Sample.world (Sample.at_token Sample.odd_block 20) Sample.new
  = (Sample.at_token Sample.odd_block 20, Sample.new,
     Some (ArgErr (Sample.at_token Sample.odd_block 20)))
  /\ parseBlock Sample.world (Sample.at_token Sample.odd_block 10) Sample.new
     = (Sample.at_token Sample.odd_block 11, Sample.new,
        Some (ArgErr (Sample.at_token Sample.odd_block 11))).
Proof.
  split.
  - apply (proj1 (wrong_argument_count Sample.world
                    (Sample.at_token Sample.odd_block 20) Sample.new)).
    + unfold valued. apply list_elem_of_here.
    + reflexivity.
  - apply (proj1 (proj2 (wrong_argument_count Sample.world
                           (Sample.at_token Sample.odd_block 10) Sample.new))).
    + left. reflexivity.
    + reflexivity.
Defined.

Lemma except_appends_witness :
  parseBlock Sample.world (Sample.at_token Sample.both_hints 9) Sample.new
  = (Sample.at_token Sample.both_hints 11,
     set_ignored Sample.new ["Example.ORG."; "lan."], None).
Proof.
  apply (except_appends Sample.world (Sample.at_token Sample.both_hints 9)
           (Sample.at_token Sample.both_hints 11) Sample.new
           ["Example.ORG"; "lan"]).
  - reflexivity.
  - reflexivity.
  - discriminate.
Defined.

Lemma except_file_bounded_witness :
  exists names,
    parseBlock Sample.world (Sample.at_token Sample.both_hints 12) Sample.new
    = (Sample.at_token Sample.both_hints 13,
       set_ignored Sample.new
         (ignored Sample.new ++ map (Normalize Sample.world) names), None)
    /\ (length names <= length Sample.blocklist)%nat.
Proof.
  apply (proj2 (except_file_bounded Sample.world
                  (Sample.at_token Sample.both_hints 12)
                  (Sample.at_token Sample.both_hints 13)
                  Sample.new "blocklist" eq_refl eq_refl)).
  reflexivity.
Defined.

(** The line [  internal.example.   # trailing comment]. *)
Lemma except_file_plain_lines_witness :
  scanLine Sample.world Sample.new
    (string_to_bytes "  " ++ string_to_bytes "internal.example."
     ++ string_to_bytes "   " ++ string_to_bytes "# trailing comment")
  = ignore Sample.world Sample.new "internal.example.".
Proof.
  apply (proj2 (except_file_plain_lines Sample.world Sample.new)
           (string_to_bytes "  ") (string_to_bytes "internal.example.")
           (string_to_bytes "   ") (string_to_bytes "# trailing comment")).
  - repeat constructor.
  - repeat constructor.
  - discriminate.
  - repeat constructor.
  - right. eexists. reflexivity.
  - reflexivity.
Defined.

(** [health_check 5s no_rec]. *)
Lemma health_check_options_witness :
  parseBlock Sample.world (Sample.at_token Sample.odd_block 4) Sample.new
  = (Sample.at_token Sample.odd_block 6,
     set_opts (set_hcInterval Sample.new 5000000000)
       (set_hcRecursionDesired (opts Sample.new) false), None).
Proof.
  apply (proj1 (health_check_options Sample.world
                  (Sample.at_token Sample.odd_block 4)
                  (Sample.at_token Sample.odd_block 5)
                  Sample.new 5000000000 eq_refl eq_refl eq_refl ltac:(lia))
           (Sample.at_token Sample.odd_block 6));
    reflexivity.
Defined.

(** The directive [forward] alone, and [forward .] without destination. *)
Lemma stanza_argument_errors_witness :
  parseStanza Sample.world 0 (Sample.at_directive [["forward"]])
  = Some (Sample.at_directive [["forward"]], Sample.new,
          Some (ArgErr (Sample.at_directive [["forward"]])))
  /\ parseStanza Sample.world 0 (Sample.at_directive [["forward"; "."]])
     = Some (Sample.at_argument [["forward"; "."]] 1,
             set_from Sample.new ".",
             Some (ArgErr (Sample.at_argument [["forward"; "."]] 1))).
Proof.
  split.
  - apply (proj1 (stanza_argument_errors Sample.world 0
                    (Sample.at_directive [["forward"]]))).
    reflexivity.
  - apply (proj1 (proj2 (stanza_argument_errors Sample.world 0
                           (Sample.at_directive [["forward"; "."]])))
             (Sample.at_argument [["forward"; "."]] 1)
             (Sample.at_argument [["forward"; "."]] 1));
      reflexivity.
Defined.

Lemma stanza_settings_witness :
  (maxfails Sample.options_stanza = maxfails (New Sample.world)
   \/ 0 <= maxfails Sample.options_stanza < 2 ^ 32)
  /\ (hcInterval Sample.options_stanza = hcInterval (New Sample.world)
      \/ 0 <= hcInterval Sample.options_stanza)
  /\ (expire Sample.options_stanza = expire (New Sample.world)
      \/ 0 <= expire Sample.options_stanza)
  /\ (maxConcurrent Sample.options_stanza = maxConcurrent (New Sample.world)
      \/ 0 <= maxConcurrent Sample.options_stanza)
  /\ (maxFailedTries Sample.options_stanza = maxFailedTries (New Sample.world)
      \/ 0 <= maxFailedTries Sample.options_stanza <= Len Sample.options_stanza).
Proof.
  apply (stanza_settings Sample.world 8 (Sample.at_directive Sample.options_block)
           Sample.options_end Sample.options_stanza).
  - vm_compute. reflexivity.
  - vm_compute. discriminate.
Defined.

(** The second stanza of [Sample.two_stanzas]. *)
Lemma parseForward_index_witness :
  exists f, Sample.two_parsed !! 1%nat = Some f /\ index f = 1.
Proof.
  eexists. split; [reflexivity|].
  apply (parseForward_index Sample.world 8 (Sample.dispenser Sample.two_stanzas)
           Sample.two_end Sample.two_parsed ltac:(vm_compute; reflexivity) 1%nat).
  reflexivity.
Defined.

Lemma stanza_without_block_witness :
  parseStanza Sample.world 1 (Sample.at_directive Sample.no_block)
  = Some (Sample.at_argument Sample.no_block 3,
          set_proxies (withServerName (set_from Sample.new "example.org."))
            [ mkProxy "10.0.0.1" "dns"
                [SetExpire 10000000000; SetRecursionDesired true];
              mkProxy "10.0.0.2" "tls"
                [SetTLSConfig (mkTLSConfig "" []); SetExpire 10000000000;
                 SetRecursionDesired true] ],
          None).
Proof.
  apply (stanza_without_block Sample.world 0
           (Sample.at_directive Sample.no_block)
           (Sample.at_argument Sample.no_block 1)
           (Sample.at_argument Sample.no_block 3)
           (Sample.at_argument Sample.no_block 3)
           "example.org" ["10.0.0.1"; "tls://10.0.0.2"]
           ["10.0.0.1"; "tls://10.0.0.2"]).
  - reflexivity.
  - reflexivity.
  - discriminate.
  - reflexivity.
  - constructor; [left; reflexivity|].
    constructor; [right; reflexivity|constructor].
  - reflexivity.
  - reflexivity.
Defined.

(** * What the properties store, and where their errors go *)

Section Stored.

Context (W : World).

(** An error of [parseBlock] ends the loop over the block, which
    returns it. *)
Lemma blocks_error k d0 d f d' f' e :
  NextBlock d0 = (true, d) ->
  parseBlock W d f = (d', f', Some e) ->
  blocks W (S k) d0 f = Some (d', f', Some e).
Proof. intros HN HP. cbn [blocks]. now rewrite HN, HP. Qed.

(** No property but [policy] writes the policy. *)
Lemma parseBlock_policy b g :
  Val b <> "policy" -> p (snd (fst (parseBlock W b g))) = p g.
Proof.
  intros H. apply String.eqb_neq in H. unfold parseBlock.
  repeat match goal with
         | |- context [hcOptions ?k ?x ?y] =>
             let E := fresh "E" in
             destruct (hcOptions k x y) as [[? ?] ?] eqn:E;
             apply hcOptions_opts in E as (? & -> & _)
         | |- context [fold_left (ignore W) ?n ?g] =>
             rewrite (fold_ignore_eq W n g)
         | |- context [fold_left (scanLine W) ?l ?g] =>
             let E := fresh "E" in
             destruct (scan_names W l g) as (? & E & _);
             rewrite E, fold_ignore_eq; clear E
         | |- context [if ?c then _ else _] => destruct c eqn:?
         | |- context [match ?x with _ => _ end] => destruct x eqn:?
         end;
    try reflexivity; congruence.
Qed.

(** The numeric settings of a stanza that parses. *)
Lemma parseStanza_settled fuel d d3 f :
  parseStanza W fuel d = Some (d3, f, None) ->
  intSize W <= 64 ->
  settled (New W) f.
Proof.
  intros Hok Hsz.
  apply parseStanza_result in Hok
    as (v & d1 & to & d2 & toHosts & f4 & _ & _ & _ & _ & _ & _ & HB & ->).
  pose proof (extends_blocks _ _ _ _ _ _ _ HB) as (Hp & _ & _).
  apply (settled_blocks W (New W)) in HB; [|exact Hsz|].
  - unfold settled, Len in *. cbn [proxies set_proxies] in *.
    rewrite Hp, length_map in HB. rewrite length_map.
    unfold withServerName. now destruct (negb _).
  - unfold settled, Len. cbn. repeat split; now left.
Qed.

(** The stanzas read before the loop of [parseForward] reaches [d']. *)
Lemma stanzas_after fuel pre :
  forall d d', parsesTo W fuel d pre d' ->
  forall k fs i, exists fs' i',
    stanzas W fuel (length pre + k) d fs i = stanzas W fuel k d' fs' i'.
Proof.
  induction pre as [|f rest IH]; intros d d'; cbn [parsesTo].
  - intros -> k fs i. now exists fs, i.
  - intros (d1 & d2 & HN & HP & Hrest) k fs i.
    cbn [length Nat.add stanzas]. rewrite HN, HP.
    apply (IH _ _ Hrest).
Qed.

(** A stanza that does not parse ends [parseForward] with its error. *)
Lemma stanzas_error fuel pre d d' d1 d2 f e k :
  parsesTo W fuel d pre d' ->
  Next d' = (true, d1) ->
  parseStanza W fuel d1 = Some (d2, f, Some e) ->
  (length pre < k)%nat ->
  stanzas W fuel k d [] 0 = Some (d2, Err e).
Proof.
  intros Hpre HN HP Hk.
  replace k with (length pre + S (k - length pre - 1))%nat by lia.
  destruct (stanzas_after _ _ _ _ Hpre (S (k - length pre - 1)) [] 0)
    as (fs' & i' & ->).
  cbn [stanzas]. now rewrite HN, HP.
Qed.

(** C3: [retry_failed N] is accepted exactly when N lies between 0 and
    the number of destinations. After an accepted N, [maxFailedTries]
    reads N and every other field reads as before. A negative N, an N
    above the number of destinations and an argument that is no [int]
    are errors that leave the configuration as it was; such an error
    ends the loop over the block, which returns it. *)
Theorem retry_failed_accepts (d d1 : Dispenser) (f : Forward) :
  Val d = "retry_failed" ->
  NextArg d = (true, d1) ->
  (forall n, Atoi (intSize W) (Val d1) = Some n ->
     0 <= n <= Z.of_nat (length (proxies f)) ->
     parseBlock W d f
     = (d1,
        {| proxies := proxies f; p := p f; hcInterval := hcInterval f;
           from := from f; ignored := ignored f; tlsConfig := tlsConfig f;
           tlsServerName := tlsServerName f; maxfails := maxfails f;
           expire := expire f; maxConcurrent := maxConcurrent f;
           maxFailedTries := n; opts := opts f;
           ErrLimitExceeded := ErrLimitExceeded f; index := index f |},
        None)
     /\ maxFailedTries (snd (fst (parseBlock W d f))) = n)
  /\ (forall n, Atoi (intSize W) (Val d1) = Some n -> n < 0 ->
        parseBlock W d f
        = (d1, f, Some (Errorf "retry_failed can't be negative: %d" [ArgZ n])))
  /\ (forall n, Atoi (intSize W) (Val d1) = Some n ->
        Z.of_nat (length (proxies f)) < n ->
        parseBlock W d f
        = (d1, f,
           Some (Errorf "retry_failed can't be larger than number of proxies(%d)"
                   [ArgZ (Z.of_nat (length (proxies f)))])))
  /\ (Atoi (intSize W) (Val d1) = None ->
        parseBlock W d f = (d1, f, Some (NumError "Atoi" (Val d1))))
  /\ (snd (parseBlock W d f) = None
      <-> exists n, Atoi (intSize W) (Val d1) = Some n
                    /\ 0 <= n <= Z.of_nat (length (proxies f)))
  /\ (forall d0 k d' f' e,
        NextBlock d0 = (true, d) ->
        parseBlock W d f = (d', f', Some e) ->
        blocks W (S k) d0 f = Some (d', f', Some e)).
Proof.
  intros Hv Hn.
  assert (Hacc : forall n, Atoi (intSize W) (Val d1) = Some n ->
                   0 <= n <= Z.of_nat (length (proxies f)) ->
                   parseBlock W d f = (d1, set_maxFailedTries f n, None)).
  { intros n Ha Hr. enter_block Hv. rewrite Hn. cbn [negb].
    unfold atoi. rewrite Ha. now zcases. }
  assert (Hneg : forall n, Atoi (intSize W) (Val d1) = Some n -> n < 0 ->
                   parseBlock W d f
                   = (d1, f, Some (Errorf "retry_failed can't be negative: %d"
                                     [ArgZ n]))).
  { intros n Ha Hr. enter_block Hv. rewrite Hn. cbn [negb].
    unfold atoi. rewrite Ha. now zcases. }
  assert (Hbig : forall n, Atoi (intSize W) (Val d1) = Some n ->
                   Z.of_nat (length (proxies f)) < n ->
                   parseBlock W d f
                   = (d1, f,
                      Some (Errorf
                              "retry_failed can't be larger than number of proxies(%d)"
                              [ArgZ (Z.of_nat (length (proxies f)))]))).
  { intros n Ha Hr. enter_block Hv. rewrite Hn. cbn [negb].
    unfold atoi. rewrite Ha. now zcases. }
  assert (Hnone : Atoi (intSize W) (Val d1) = None ->
                  parseBlock W d f = (d1, f, Some (NumError "Atoi" (Val d1)))).
  { intros Ha. enter_block Hv. rewrite Hn. cbn [negb].
    unfold atoi. now rewrite Ha. }
  split; [|split; [|split; [|split; [|split]]]].
  - intros n Ha Hr. rewrite (Hacc n Ha Hr). split; reflexivity.
  - exact Hneg.
  - exact Hbig.
  - exact Hnone.
  - split.
    + intros Hs. destruct (Atoi (intSize W) (Val d1)) as [n|] eqn:Ha.
      * exists n. split; [reflexivity|].
        destruct (Z.lt_ge_cases n 0) as [Hlt|Hge].
        { rewrite (Hneg n eq_refl Hlt) in Hs. discriminate Hs. }
        destruct (Z.lt_ge_cases (Z.of_nat (length (proxies f))) n) as [Hlt|Hle].
        { rewrite (Hbig n eq_refl Hlt) in Hs. discriminate Hs. }
        lia.
      * rewrite (Hnone eq_refl) in Hs. discriminate Hs.
    + intros (n & Ha & Hr). now rewrite (Hacc n Ha Hr).
  - intros d0 k d' f' e. apply blocks_error.
Qed.

(** C6: [policy] accepts the strings random, round_robin and sequential
    and no other string. After an accepted string the field [p] reads the
    matching policy and every other field reads as before; any other
    string is the error [unknown policy], which leaves the configuration
    as it was and ends the loop over the block. One engine has one
    policy, which setup.go fixes in this way: no other property writes
    [p], and the policy of a stanza that parses is the one that its block
    has left. *)
Theorem policy_accepts (d d1 : Dispenser) (f : Forward) :
  Val d = "policy" ->
  NextArg d = (true, d1) ->
  (Val d1 = "random" ->
     parseBlock W d f
     = (d1,
        {| proxies := proxies f; p := random; hcInterval := hcInterval f;
           from := from f; ignored := ignored f; tlsConfig := tlsConfig f;
           tlsServerName := tlsServerName f; maxfails := maxfails f;
           expire := expire f; maxConcurrent := maxConcurrent f;
           maxFailedTries := maxFailedTries f; opts := opts f;
           ErrLimitExceeded := ErrLimitExceeded f; index := index f |},
        None)
     /\ p (snd (fst (parseBlock W d f))) = random)
  /\ (Val d1 = "round_robin" ->
        parseBlock W d f
        = (d1,
           {| proxies := proxies f; p := roundRobin;
              hcInterval := hcInterval f; from := from f;
              ignored := ignored f; tlsConfig := tlsConfig f;
              tlsServerName := tlsServerName f; maxfails := maxfails f;
              expire := expire f; maxConcurrent := maxConcurrent f;
              maxFailedTries := maxFailedTries f; opts := opts f;
              ErrLimitExceeded := ErrLimitExceeded f; index := index f |},
           None)
        /\ p (snd (fst (parseBlock W d f))) = roundRobin)
  /\ (Val d1 = "sequential" ->
        parseBlock W d f
        = (d1,
           {| proxies := proxies f; p := sequential;
              hcInterval := hcInterval f; from := from f;
              ignored := ignored f; tlsConfig := tlsConfig f;
              tlsServerName := tlsServerName f; maxfails := maxfails f;
              expire := expire f; maxConcurrent := maxConcurrent f;
              maxFailedTries := maxFailedTries f; opts := opts f;
              ErrLimitExceeded := ErrLimitExceeded f; index := index f |},
           None)
        /\ p (snd (fst (parseBlock W d f))) = sequential)
  /\ (Val d1 <> "random" -> Val d1 <> "round_robin" -> Val d1 <> "sequential" ->
      parseBlock W d f
      = (d1, f, Some (Errf d1 "unknown policy '%s'" [ArgS (Val d1)])))
  /\ (snd (parseBlock W d f) = None
      <-> Val d1 = "random" \/ Val d1 = "round_robin" \/ Val d1 = "sequential")
  /\ (forall d0 k d' f' e,
        NextBlock d0 = (true, d) ->
        parseBlock W d f = (d', f', Some e) ->
        blocks W (S k) d0 f = Some (d', f', Some e))
  /\ (forall b g, Val b <> "policy" -> p (snd (fst (parseBlock W b g))) = p g)
  /\ (forall fuel s s3 g,
        parseStanza W fuel s = Some (s3, g, None) ->
        exists v s1 to s2 toHosts f4,
          Args 1 s = (true, [v], s1)
          /\ RemainingArgs s1 = (to, s2)
          /\ HostPortOrFile W to = Ok toHosts
          /\ blocks W fuel s2
               {| proxies := map (proxyFor W) toHosts; p := p (New W);
                  hcInterval := hcInterval (New W); from := Normalize W v;
                  ignored := ignored (New W);
                  tlsConfig := tlsConfig (New W);
                  tlsServerName := tlsServerName (New W);
                  maxfails := maxfails (New W); expire := expire (New W);
                  maxConcurrent := maxConcurrent (New W);
                  maxFailedTries := maxFailedTries (New W);
                  opts := opts (New W);
                  ErrLimitExceeded := ErrLimitExceeded (New W);
                  index := index (New W) |}
             = Some (s3, f4, None)
          /\ p g = p f4).
Proof.
  intros Hv Hn.
  assert (H1 : Val d1 = "random" -> parseBlock W d f = (d1, set_p f random, None)).
  { intros Hx. enter_block Hv. rewrite Hn. cbn [negb]. now rewrite Hx. }
  assert (H2 : Val d1 = "round_robin" ->
               parseBlock W d f = (d1, set_p f roundRobin, None)).
  { intros Hx. enter_block Hv. rewrite Hn. cbn [negb]. now rewrite Hx. }
  assert (H3 : Val d1 = "sequential" ->
               parseBlock W d f = (d1, set_p f sequential, None)).
  { intros Hx. enter_block Hv. rewrite Hn. cbn [negb]. now rewrite Hx. }
  assert (H4 : Val d1 <> "random" -> Val d1 <> "round_robin" ->
               Val d1 <> "sequential" ->
               parseBlock W d f
               = (d1, f, Some (Errf d1 "unknown policy '%s'" [ArgS (Val d1)]))).
  { intros N1 N2 N3. enter_block Hv. rewrite Hn. cbn [negb].
    apply String.eqb_neq in N1, N2, N3. now rewrite N1, N2, N3. }
  split; [|split; [|split; [|split; [|split; [|split; [|split]]]]]].
  - intros Hx. rewrite (H1 Hx). split; reflexivity.
  - intros Hx. rewrite (H2 Hx). split; reflexivity.
  - intros Hx. rewrite (H3 Hx). split; reflexivity.
  - exact H4.
  - split.
    + intros Hs.
      destruct (String.eqb_spec (Val d1) "random") as [|N1]; [auto|].
      destruct (String.eqb_spec (Val d1) "round_robin") as [|N2]; [auto|].
      destruct (String.eqb_spec (Val d1) "sequential") as [|N3]; [auto|].
      rewrite (H4 N1 N2 N3) in Hs. discriminate Hs.
    + intros [Hx|[Hx|Hx]].
      * now rewrite (H1 Hx).
      * now rewrite (H2 Hx).
      * now rewrite (H3 Hx).
  - intros d0 k d' f' e. apply blocks_error.
  - apply parseBlock_policy.
  - intros fuel s s3 g Hok.
    apply parseStanza_result in Hok
      as (v & s1 & to & s2 & toHosts & f4 & HA & HR & _ & HH & _ & _ & HB & ->).
    exists v, s1, to, s2, toHosts, f4.
    split; [exact HA|]. split; [exact HR|]. split; [exact HH|].
    split; [exact HB|].
    cbn [p set_proxies]. unfold withServerName. now destruct (negb _).
Qed.

(** C7: a negative [max_fails], [health_check], [expire] or
    [max_concurrent] is an error of [parseBlock] that leaves the
    configuration as it was, and so is a value that [strconv.Atoi] or
    [time.ParseDuration] refuses. A value that is not negative is
    stored: afterwards [maxfails] reads it as a uint32 (the value itself
    below 2^32), [maxConcurrent] as an int64 (the value itself where
    [int] has at most 64 bits), with [ErrLimitExceeded] naming it, and
    [hcInterval] and [expire] read the duration; the other fields read
    as before. After a [health_check] interval only an unknown option
    can still fail the property, and none does when the line ends
    there. An error ends the loop over the block, which returns it, and
    no stanza that parses carries a negative value of these settings
    unless the defaults do. *)
Theorem negative_values_rejected (d d1 : Dispenser) (f : Forward) :
  NextArg d = (true, d1) ->
  (Val d = "max_fails" ->
     (forall n, Atoi (intSize W) (Val d1) = Some n -> n < 0 ->
        parseBlock W d f
        = (d1, f, Some (Errorf "max_fails can't be negative: %d" [ArgZ n])))
     /\ (forall n, Atoi (intSize W) (Val d1) = Some n -> 0 <= n ->
           parseBlock W d f
           = (d1,
              {| proxies := proxies f; p := p f; hcInterval := hcInterval f;
                 from := from f; ignored := ignored f;
                 tlsConfig := tlsConfig f; tlsServerName := tlsServerName f;
                 maxfails := uint32 n; expire := expire f;
                 maxConcurrent := maxConcurrent f;
                 maxFailedTries := maxFailedTries f; opts := opts f;
                 ErrLimitExceeded := ErrLimitExceeded f; index := index f |},
              None)
           /\ maxfails (snd (fst (parseBlock W d f))) = uint32 n
           /\ (n < 2 ^ 32 -> maxfails (snd (fst (parseBlock W d f))) = n))
     /\ (Atoi (intSize W) (Val d1) = None ->
           parseBlock W d f = (d1, f, Some (NumError "Atoi" (Val d1)))))
  /\ (Val d = "health_check" ->
        (forall n, ParseDuration W (Val d1) = Ok n -> n < 0 ->
           parseBlock W d f
           = (d1, f, Some (Errorf "health_check can't be negative: %d" [ArgZ n])))
        /\ (forall n, ParseDuration W (Val d1) = Ok n -> 0 <= n ->
              exists d2 f2 err,
                parseBlock W d f = (d2, f2, err)
                /\ hcInterval f2 = n
                /\ (err = None \/ exists o,
                      err = Some (Errorf "health_check: unknown option %s" [ArgS o]))
                /\ (NextArg d1 = (false, d1) ->
                    d2 = d1
                    /\ f2 =
                       {| proxies := proxies f; p := p f; hcInterval := n;
                          from := from f; ignored := ignored f;
                          tlsConfig := tlsConfig f;
                          tlsServerName := tlsServerName f;
                          maxfails := maxfails f; expire := expire f;
                          maxConcurrent := maxConcurrent f;
                          maxFailedTries := maxFailedTries f;
                          opts := opts f;
                          ErrLimitExceeded := ErrLimitExceeded f;
                          index := index f |}
                    /\ err = None))
        /\ (forall e, ParseDuration W (Val d1) = Err e ->
              parseBlock W d f = (d1, f, Some e)))
  /\ (Val d = "expire" ->
        (forall n, ParseDuration W (Val d1) = Ok n -> n < 0 ->
           parseBlock W d f
           = (d1, f, Some (Errorf "expire can't be negative: %s" [ArgZ n])))
        /\ (forall n, ParseDuration W (Val d1) = Ok n -> 0 <= n ->
              parseBlock W d f
              = (d1,
                 {| proxies := proxies f; p := p f;
                    hcInterval := hcInterval f; from := from f;
                    ignored := ignored f; tlsConfig := tlsConfig f;
                    tlsServerName := tlsServerName f;
                    maxfails := maxfails f; expire := n;
                    maxConcurrent := maxConcurrent f;
                    maxFailedTries := maxFailedTries f; opts := opts f;
                    ErrLimitExceeded := ErrLimitExceeded f;
                    index := index f |},
                 None)
              /\ expire (snd (fst (parseBlock W d f))) = n)
        /\ (forall e, ParseDuration W (Val d1) = Err e ->
              parseBlock W d f = (d1, f, Some e)))
  /\ (Val d = "max_concurrent" ->
        (forall n, Atoi (intSize W) (Val d1) = Some n -> n < 0 ->
           parseBlock W d f
           = (d1, f, Some (Errorf "max_concurrent can't be negative: %d" [ArgZ n])))
        /\ (forall n, Atoi (intSize W) (Val d1) = Some n -> 0 <= n ->
              parseBlock W d f
              = (d1,
                 {| proxies := proxies f; p := p f;
                    hcInterval := hcInterval f; from := from f;
                    ignored := ignored f; tlsConfig := tlsConfig f;
                    tlsServerName := tlsServerName f;
                    maxfails := maxfails f; expire := expire f;
                    maxConcurrent := int64 n;
                    maxFailedTries := maxFailedTries f; opts := opts f;
                    ErrLimitExceeded :=
                      Some (ErrorsNew ("concurrent queries exceeded maximum "
                                       +:+ Val d1));
                    index := index f |},
                 None)
              /\ maxConcurrent (snd (fst (parseBlock W d f))) = int64 n
              /\ (intSize W <= 64 ->
                  maxConcurrent (snd (fst (parseBlock W d f))) = n)
              /\ ErrLimitExceeded (snd (fst (parseBlock W d f)))
                 = Some (ErrorsNew ("concurrent queries exceeded maximum "
                                    +:+ Val d1)))
        /\ (Atoi (intSize W) (Val d1) = None ->
              parseBlock W d f = (d1, f, Some (NumError "Atoi" (Val d1)))))
  /\ (forall d0 k d' f' e,
        NextBlock d0 = (true, d) ->
        parseBlock W d f = (d', f', Some e) ->
        blocks W (S k) d0 f = Some (d', f', Some e))
  /\ (forall fuel s s3 g,
        parseStanza W fuel s = Some (s3, g, None) ->
        intSize W <= 64 ->
        (maxfails g = maxfails (New W) \/ 0 <= maxfails g)
        /\ (hcInterval g = hcInterval (New W) \/ 0 <= hcInterval g)
        /\ (expire g = expire (New W) \/ 0 <= expire g)
        /\ (maxConcurrent g = maxConcurrent (New W) \/ 0 <= maxConcurrent g)).
Proof.
  intros Hn. split; [|split; [|split; [|split; [|split]]]].
  - (* max_fails *)
    intros Hv. split; [|split].
    + intros n Hp Hneg. enter_block Hv. rewrite Hn. cbn [negb].
      unfold atoi. rewrite Hp. now zcases.
    + intros n Hp Hpos.
      assert (E : parseBlock W d f = (d1, set_maxfails f (uint32 n), None)).
      { enter_block Hv. rewrite Hn. cbn [negb]. unfold atoi. rewrite Hp.
        now zcases. }
      rewrite E. split; [reflexivity|]. split; [reflexivity|].
      intros Hsmall. cbn. apply uint32_small. lia.
    + intros Hp. enter_block Hv. rewrite Hn. cbn [negb].
      unfold atoi. now rewrite Hp.
  - (* health_check *)
    intros Hv. split; [|split].
    + intros n Hp Hneg. enter_block Hv. rewrite Hn. cbn [negb]. rewrite Hp.
      now zcases.
    + intros n Hp Hpos.
      destruct (hcOptions (argFuel d1) d1 (set_hcInterval f n))
        as [[d2 f2] err] eqn:E.
      exists d2, f2, err. split; [|split; [|split]].
      * enter_block Hv. rewrite Hn. cbn [negb]. rewrite Hp. now zcases.
      * now apply hcOptions_frame in E as [-> _].
      * now apply hcOptions_frame in E as [_ ?].
      * intros Hend. destruct (argFuel d1); simpl in E.
        -- now injection E as <- <- <-.
        -- rewrite Hend in E. now injection E as <- <- <-.
    + intros e Hp. enter_block Hv. rewrite Hn. cbn [negb]. now rewrite Hp.
  - (* expire *)
    intros Hv. split; [|split].
    + intros n Hp Hneg. enter_block Hv. rewrite Hn. cbn [negb]. rewrite Hp.
      now zcases.
    + intros n Hp Hpos.
      assert (E : parseBlock W d f = (d1, set_expire f n, None)).
      { enter_block Hv. rewrite Hn. cbn [negb]. rewrite Hp. now zcases. }
      rewrite E. split; reflexivity.
    + intros e Hp. enter_block Hv. rewrite Hn. cbn [negb]. now rewrite Hp.
  - (* max_concurrent *)
    intros Hv. split; [|split].
    + intros n Hp Hneg. enter_block Hv. rewrite Hn. cbn [negb].
      unfold atoi. rewrite Hp. now zcases.
    + intros n Hp Hpos.
      assert (E : parseBlock W d f
                  = (d1, set_maxConcurrent
                           (set_ErrLimitExceeded f
                              (Some (ErrorsNew ("concurrent queries exceeded maximum "
                                                +:+ Val d1))))
                           (int64 n), None)).
      { enter_block Hv. rewrite Hn. cbn [negb]. unfold atoi. rewrite Hp.
        now zcases. }
      rewrite E. split; [reflexivity|]. split; [reflexivity|].
      split; [|reflexivity].
      intros Hsz. cbn. apply int64_small.
      assert (Ha : atoi W (Val d1) = Ok n) by (unfold atoi; now rewrite Hp).
      apply (atoi_range W _ _ Hsz) in Ha. lia.
    + intros Hp. enter_block Hv. rewrite Hn. cbn [negb].
      unfold atoi. now rewrite Hp.
  - intros d0 k d' f' e. apply blocks_error.
  - intros fuel s s3 g Hok Hsz.
    destruct (parseStanza_settled _ _ _ _ Hok Hsz) as (S1 & S2 & S3 & S4 & _).
    split; [|split; [|split]].
    + destruct S1 as [S1|S1]; [now left|right; lia].
    + exact S2.
    + exact S3.
    + exact S4.
Qed.

(** C10: an accepted [max_fails N] is stored narrowed to a uint32: after
    it [maxfails] reads N modulo 2^32 and every other field reads as
    before. Where [int] has 64 bits, 4294967296 is accepted and
    [maxfails] reads 0 after it, the threshold with which no count of
    failures makes a target unhealthy. *)
Theorem max_fails_narrowed (d d1 : Dispenser) (f : Forward) :
  Val d = "max_fails" ->
  NextArg d = (true, d1) ->
  (forall n, Atoi (intSize W) (Val d1) = Some n -> 0 <= n ->
     parseBlock W d f
     = (d1,
        {| proxies := proxies f; p := p f; hcInterval := hcInterval f;
           from := from f; ignored := ignored f; tlsConfig := tlsConfig f;
           tlsServerName := tlsServerName f; maxfails := n mod 2 ^ 32;
           expire := expire f; maxConcurrent := maxConcurrent f;
           maxFailedTries := maxFailedTries f; opts := opts f;
           ErrLimitExceeded := ErrLimitExceeded f; index := index f |},
        None)
     /\ maxfails (snd (fst (parseBlock W d f))) = n mod 2 ^ 32)
  /\ (intSize W = 64 -> Val d1 = "4294967296" ->
      parseBlock W d f
      = (d1,
         {| proxies := proxies f; p := p f; hcInterval := hcInterval f;
            from := from f; ignored := ignored f; tlsConfig := tlsConfig f;
            tlsServerName := tlsServerName f; maxfails := 0;
            expire := expire f; maxConcurrent := maxConcurrent f;
            maxFailedTries := maxFailedTries f; opts := opts f;
            ErrLimitExceeded := ErrLimitExceeded f; index := index f |},
         None)
      /\ maxfails (snd (fst (parseBlock W d f))) = 0
      /\ forall fails,
           unhealthy (maxfails (snd (fst (parseBlock W d f)))) fails = false).
Proof.
  intros Hv Hn. split.
  - intros n Ha Hpos.
    assert (E : parseBlock W d f = (d1, set_maxfails f (n mod 2 ^ 32), None)).
    { enter_block Hv. rewrite Hn. cbn [negb]. unfold atoi. rewrite Ha.
      now zcases. }
    rewrite E. split; reflexivity.
  - intros Hsz Hx.
    assert (E : parseBlock W d f = (d1, set_maxfails f 0, None)).
    { enter_block Hv. rewrite Hn. cbn [negb]. unfold atoi. rewrite Hsz, Hx.
      reflexivity. }
    rewrite E. split; [reflexivity|]. split; [reflexivity|].
    intros fails. reflexivity.
Qed.

(** C8: in a stanza that parses, the TLS configuration of the stanza is
    the one that the block of the stanza has left, with the name given
    to [tls_servername] as its server name when that name is not empty;
    it is set on the proxies whose transport is [transport.TLS] and on
    no other proxy; the expiry and the recursion-desired flag of the
    probes are set on every proxy. The block is the one read behind the
    destinations of this stanza; in it, [tls_servername] stores its
    argument in [tlsServerName] and [tls] stores the configuration made
    from its arguments in [tlsConfig]. *)
Theorem tls_only_for_tls_proxies (fuel : nat) (d d3 : Dispenser) (f : Forward) :
  parseStanza W fuel d = Some (d3, f, None) ->
  (exists v d1 to d2 toHosts f4,
     Args 1 d = (true, [v], d1)
     /\ RemainingArgs d1 = (to, d2)
     /\ HostPortOrFile W to = Ok toHosts
     /\ blocks W fuel d2
          {| proxies := map (proxyFor W) toHosts; p := p (New W);
             hcInterval := hcInterval (New W); from := Normalize W v;
             ignored := ignored (New W); tlsConfig := tlsConfig (New W);
             tlsServerName := tlsServerName (New W);
             maxfails := maxfails (New W); expire := expire (New W);
             maxConcurrent := maxConcurrent (New W);
             maxFailedTries := maxFailedTries (New W); opts := opts (New W);
             ErrLimitExceeded := ErrLimitExceeded (New W);
             index := index (New W) |}
        = Some (d3, f4, None)
     /\ tlsServerName f = tlsServerName f4
     /\ material (tlsConfig f) = material (tlsConfig f4)
     /\ ServerName (tlsConfig f)
        = (if String.eqb (tlsServerName f4) "" then ServerName (tlsConfig f4)
           else tlsServerName f4)
     /\ expire f = expire f4
     /\ opts f = opts f4
     /\ map (fun px => (addr px, trans px)) (proxies f)
        = map (fun h => (snd (Transport W h), fst (Transport W h))) toHosts)
  /\ (tlsServerName f <> "" -> ServerName (tlsConfig f) = tlsServerName f)
  /\ (forall px, px ∈ proxies f ->
        calls px
        = (if String.eqb (trans px) (TLS W)
           then [SetTLSConfig (tlsConfig f)] else [])
          ++ [SetExpire (expire f);
              SetRecursionDesired (hcRecursionDesired (opts f))])
  /\ (forall b b1 g,
        Val b = "tls_servername" -> NextArg b = (true, b1) ->
        parseBlock W b g
        = (b1,
           {| proxies := proxies g; p := p g; hcInterval := hcInterval g;
              from := from g; ignored := ignored g;
              tlsConfig := tlsConfig g; tlsServerName := Val b1;
              maxfails := maxfails g; expire := expire g;
              maxConcurrent := maxConcurrent g;
              maxFailedTries := maxFailedTries g; opts := opts g;
              ErrLimitExceeded := ErrLimitExceeded g; index := index g |},
           None)
        /\ tlsServerName (snd (fst (parseBlock W b g))) = Val b1)
  /\ (forall b b1 g args cfg,
        Val b = "tls" -> RemainingArgs b = (args, b1) ->
        (length args <= 3)%nat ->
        NewTLSConfigFromArgs W args = Ok cfg ->
        parseBlock W b g
        = (b1,
           {| proxies := proxies g; p := p g; hcInterval := hcInterval g;
              from := from g; ignored := ignored g; tlsConfig := cfg;
              tlsServerName := tlsServerName g; maxfails := maxfails g;
              expire := expire g; maxConcurrent := maxConcurrent g;
              maxFailedTries := maxFailedTries g; opts := opts g;
              ErrLimitExceeded := ErrLimitExceeded g; index := index g |},
           None)
        /\ tlsConfig (snd (fst (parseBlock W b g))) = cfg).
Proof.
  intros Hok.
  apply parseStanza_result in Hok
    as (v & d1 & to & d2 & toHosts & f4 & HA & HR & _ & HH & _ & _ & HB & ->).
  cbn [tlsServerName tlsConfig expire opts proxies set_proxies].
  split; [|split; [|split; [|split]]].
  - exists v, d1, to, d2, toHosts, f4.
    split; [exact HA|]. split; [exact HR|]. split; [exact HH|].
    split; [exact HB|].
    unfold withServerName.
    destruct (String.eqb (tlsServerName f4) ""); cbn;
      (split; [reflexivity|]); (split; [reflexivity|]);
      (split; [reflexivity|]); (split; [reflexivity|]);
      (split; [reflexivity|]);
      rewrite map_map; apply map_ext; reflexivity.
  - unfold withServerName.
    destruct (String.eqb_spec (tlsServerName f4) "") as [E|E]; cbn.
    + intros H. now rewrite E in H.
    + reflexivity.
  - intros px Hin. apply list_elem_of_In, in_map_iff in Hin as (h & <- & _).
    reflexivity.
  - intros b b1 g Hv Hn.
    assert (E : parseBlock W b g = (b1, set_tlsServerName g (Val b1), None)).
    { enter_block Hv. now rewrite Hn. }
    rewrite E. split; reflexivity.
  - intros b b1 g args cfg Hv HR' Hlen Hcfg.
    assert (E : parseBlock W b g = (b1, set_tlsConfig g cfg, None)).
    { enter_block Hv. rewrite HR'.
      destruct (Nat.ltb_spec 3 (length args)); [lia|]. now rewrite Hcfg. }
    rewrite E. split; reflexivity.
Qed.

(** X13: whatever [setup] returns, it has registered a handler, a startup
    hook and a shutdown hook for the same stanzas, in the same order,
    each with at most 15 destinations. When a stanza does not parse, be
    it the first or one behind stanzas that parse, [setup] returns the
    error of that stanza as a plugin error and has registered
    nothing. *)
Theorem setup_registers_together (fuel : nat) (c : Controller) :
  (forall c' err,
     setup W fuel c = Some (c', err) ->
     exists reg,
       plugins c' = plugins c ++ reg
       /\ onStartup c' = onStartup c ++ reg
       /\ onShutdown c' = onShutdown c ++ reg
       /\ Forall (fun f => Len f <= 15) reg)
  /\ (forall pre d d1 d2 f e,
        parsesTo W fuel (disp c) pre d ->
        Next d = (true, d1) ->
        parseStanza W fuel d1 = Some (d2, f, Some e) ->
        (length pre < fuel)%nat ->
        setup W fuel c
        = Some (mkController d2 (plugins c) (onStartup c) (onShutdown c),
                Some (PluginError "forward" e))).
Proof.
  split.
  - intros c' err. unfold setup.
    destruct (parseForward W fuel (disp c)) as [[d [fs|e]]|]; [| |discriminate].
    + set (c0 := mkController d (plugins c) (onStartup c) (onShutdown c)).
      destruct (register_spec fs c0) as (reg & rest & _ & Hreg & Hc & _).
      intros [= H]. rewrite H in Hc. cbn [fst] in Hc. subst c'.
      exists reg. cbn. split; [|split; [|split]]; try reflexivity.
      exact Hreg.
    + intros [= <- <-]. exists []. cbn. rewrite !app_nil_r.
      split; [|split; [|split]]; try reflexivity. constructor.
  - intros pre d d1 d2 f e Hpre HN HP Hk. unfold setup, parseForward.
    now rewrite (stanzas_error _ _ _ _ _ _ _ _ _ Hpre HN HP Hk).
Qed.

End Stored.

(** ** These properties on the sample configurations *)

(** [retry_failed 2] and [retry_failed 3] with two destinations. *)
Lemma retry_failed_accepts_witness :
  maxFailedTries
    (snd (fst (parseBlock Sample.world (Sample.at_token Sample.options_block 5)
                 Sample.two_targets))) = 2
  /\ snd (parseBlock Sample.world (Sample.at_token Sample.options_block 5)
            Sample.two_targets) = None
  /\ parseBlock Sample.world (Sample.at_token Sample.retry_three 5)
       Sample.two_targets
     = (Sample.at_token Sample.retry_three 6, Sample.two_targets,
        Some (Errorf "retry_failed can't be larger than number of proxies(%d)"
                [ArgZ 2])).
Proof.
  destruct (retry_failed_accepts Sample.world
              (Sample.at_token Sample.options_block 5)
              (Sample.at_token Sample.options_block 6)
              Sample.two_targets eq_refl eq_refl)
    as (Hacc & _ & _ & _ & Hiff & _).
  destruct (retry_failed_accepts Sample.world
              (Sample.at_token Sample.retry_three 5)
              (Sample.at_token Sample.retry_three 6)
              Sample.two_targets eq_refl eq_refl)
    as (_ & _ & Hbig & _).
  split; [|split].
  - apply (Hacc 2 eq_refl). simpl. lia.
  - apply Hiff. exists 2. split; [reflexivity|]. simpl. lia.
  - apply (Hbig 3 eq_refl). simpl. lia.
Defined.

(** [setup] on [Sample.retry_three]: the error, and no hook. *)
Example setup_retry_three :
  option_map (fun r => (snd r, plugins (fst r), onStartup (fst r)))
    (setup Sample.world 4 (Sample.controller Sample.retry_three))
  = Some (Some (PluginError "forward"
                  (Errorf "retry_failed can't be larger than number of proxies(%d)"
                     [ArgZ 2])),
          [], []).
Proof. vm_compute. reflexivity. Qed.

(** [setup] on [Sample.negative_block]: the error, and no hook. *)
Example setup_negative_block :
  option_map (fun r => (snd r, plugins (fst r), onStartup (fst r)))
    (setup Sample.world 4 (Sample.controller Sample.negative_block))
  = Some (Some (PluginError "forward"
                  (Errorf "max_fails can't be negative: %d" [ArgZ (-1)])),
          [], []).
Proof. vm_compute. reflexivity. Qed.

(** [policy round_robin], and [retry_failed 2] behind a policy. *)
Lemma policy_accepts_witness :
  p (snd (fst (parseBlock Sample.world (Sample.at_token Sample.options_block 9)
                 Sample.two_targets))) = roundRobin
  /\ snd (parseBlock Sample.world (Sample.at_token Sample.options_block 9)
            Sample.two_targets) = None
  /\ p (snd (fst (parseBlock Sample.world (Sample.at_token Sample.options_block 5)
                    (set_p Sample.two_targets sequential)))) = sequential.
Proof.
  destruct (policy_accepts Sample.world
              (Sample.at_token Sample.options_block 9)
              (Sample.at_token Sample.options_block 10)
              Sample.two_targets eq_refl eq_refl)
    as (_ & Hrr & _ & _ & Hiff & _ & Hframe & _).
  split; [|split].
  - apply (Hrr eq_refl).
  - apply Hiff. right. left. reflexivity.
  - apply (Hframe (Sample.at_token Sample.options_block 5)
             (set_p Sample.two_targets sequential)).
    discriminate.
Defined.

(** [max_fails -1] is refused, and so is a negative number that is no
    [int]; [max_concurrent 100] and [expire 30s] are stored. *)
Lemma negative_values_rejected_witness :
  parseBlock Sample.world (Sample.at_token Sample.negative_block 4)
    Sample.two_targets
  = (Sample.at_token Sample.negative_block 5, Sample.two_targets,
     Some (Errorf "max_fails can't be negative: %d" [ArgZ (-1)]))
  /\ parseBlock Sample.world (Sample.at_token [["max_fails"; "-99999999999999999999"]] 0)
       Sample.two_targets
     = (Sample.at_token [["max_fails"; "-99999999999999999999"]] 1, Sample.two_targets,
        Some (NumError "Atoi" "-99999999999999999999"))
  /\ maxConcurrent
       (snd (fst (parseBlock Sample.world (Sample.at_token Sample.options_block 16)
                    Sample.two_targets))) = 100
  /\ ErrLimitExceeded
       (snd (fst (parseBlock Sample.world (Sample.at_token Sample.options_block 16)
                    Sample.two_targets)))
     = Some (ErrorsNew "concurrent queries exceeded maximum 100")
  /\ expire
       (snd (fst (parseBlock Sample.world (Sample.at_token Sample.options_block 14)
                    Sample.two_targets))) = 30000000000.
Proof.
  destruct (negative_values_rejected Sample.world
              (Sample.at_token Sample.negative_block 4)
              (Sample.at_token Sample.negative_block 5)
              Sample.two_targets eq_refl) as (Hneg & _).
  destruct (negative_values_rejected Sample.world
              (Sample.at_token [["max_fails"; "-99999999999999999999"]] 0)
              (Sample.at_token [["max_fails"; "-99999999999999999999"]] 1)
              Sample.two_targets eq_refl) as (Hmany & _).
  destruct (negative_values_rejected Sample.world
              (Sample.at_token Sample.options_block 16)
              (Sample.at_token Sample.options_block 17)
              Sample.two_targets eq_refl) as (_ & _ & _ & Hmc & _).
  destruct (negative_values_rejected Sample.world
              (Sample.at_token Sample.options_block 14)
              (Sample.at_token Sample.options_block 15)
              Sample.two_targets eq_refl) as (_ & _ & Hex & _).
  destruct (Hneg eq_refl) as (Hneg1 & _).
  destruct (Hmany eq_refl) as (_ & _ & Hnone).
  destruct (Hmc eq_refl) as (_ & Hstore & _).
  destruct (Hstore 100 eq_refl ltac:(lia)) as (_ & _ & Hread & Herr).
  destruct (Hex eq_refl) as (_ & Hexp & _).
  destruct (Hexp 30000000000 eq_refl ltac:(lia)) as (_ & Hexpire).
  split; [|split; [|split; [|split]]].
  - apply (Hneg1 (-1) eq_refl). lia.
  - apply (Hnone eq_refl).
  - apply Hread. vm_compute. discriminate.
  - exact Herr.
  - exact Hexpire.
Defined.

(** [max_fails 4294967296] is stored as 0. *)
Lemma max_fails_narrowed_witness :
  maxfails
    (snd (fst (parseBlock Sample.world (Sample.at_token Sample.options_block 7)
                 Sample.two_targets))) = 0
  /\ maxfails Sample.two_targets = 2
  /\ unhealthy
       (maxfails
          (snd (fst (parseBlock Sample.world (Sample.at_token Sample.options_block 7)
                       Sample.two_targets)))) 1000 = false.
Proof.
  destruct (proj2 (max_fails_narrowed Sample.world
                     (Sample.at_token Sample.options_block 7)
                     (Sample.at_token Sample.options_block 8)
                     Sample.two_targets eq_refl eq_refl) eq_refl eq_refl)
    as (_ & Hread & Hoff).
  split; [exact Hread|]. split; [reflexivity|]. apply Hoff.
Defined.

(** The stanza [Sample.both_hints]: one plain and one TLS destination,
    and [tls_servername dns.example]. *)
Lemma tls_only_for_tls_proxies_witness :
  ServerName (tlsConfig Sample.both_stanza) = "dns.example"
  /\ ServerName (tlsConfig (New Sample.world)) = ""
  /\ (forall px, px ∈ proxies Sample.both_stanza ->
        calls px
        = (if String.eqb (trans px) "tls"
           then [SetTLSConfig (mkTLSConfig "dns.example" [])] else [])
          ++ [SetExpire 10000000000; SetRecursionDesired true])
  /\ map (fun px => (addr px, trans px, length (calls px)))
       (proxies Sample.both_stanza)
     = [("10.0.0.1", "dns", 2%nat); ("10.0.0.2", "tls", 3%nat)]
  /\ tlsServerName
       (snd (fst (parseBlock Sample.world (Sample.at_token Sample.both_hints 7)
                    Sample.two_targets))) = "dns.example".
Proof.
  destruct (tls_only_for_tls_proxies Sample.world 7
              (Sample.at_directive Sample.both_hints)
              Sample.both_end Sample.both_stanza
              ltac:(vm_compute; reflexivity))
    as (_ & Hname & Hcalls & Hsn & _).
  split; [|split; [|split; [|split]]].
  - apply Hname. discriminate.
  - reflexivity.
  - exact Hcalls.
  - reflexivity.
  - apply (Hsn (Sample.at_token Sample.both_hints 7)
             (Sample.at_token Sample.both_hints 8) Sample.two_targets);
      reflexivity.
Defined.

(** The two stanzas of [Sample.two_stanzas] are registered; the second
    stanza of [Sample.second_refused] is refused and nothing is
    registered. *)
Lemma setup_registers_together_witness :
  (exists c' err reg,
     setup Sample.world 8 (Sample.controller Sample.two_stanzas) = Some (c', err)
     /\ plugins c' = plugins (Sample.controller Sample.two_stanzas) ++ reg
     /\ onStartup c' = onStartup (Sample.controller Sample.two_stanzas) ++ reg
     /\ onShutdown c' = onShutdown (Sample.controller Sample.two_stanzas) ++ reg
     /\ Forall (fun f => Len f <= 15) reg)
  /\ setup Sample.world 8 (Sample.controller Sample.second_refused)
     = Some (mkController (Sample.at_argument Sample.second_refused 18) [] [] [],
             Some (PluginError "forward"
                     (Errorf "'%s' is not supported as a destination protocol in forward: %s"
                        [ArgS "grpc"; ArgS "grpc://10.0.0.2"]))).
Proof.
  split.
  - destruct (setup Sample.world 8 (Sample.controller Sample.two_stanzas))
      as [[c' err]|] eqn:E; [|vm_compute in E; discriminate E].
    destruct (proj1 (setup_registers_together Sample.world 8
                       (Sample.controller Sample.two_stanzas)) c' err E)
      as (reg & H1 & H2 & H3 & H4).
    exists c', err, reg. auto.
  - apply (proj2 (setup_registers_together Sample.world 8
                    (Sample.controller Sample.second_refused))
             [Sample.both_stanza]
             (Sample.at_argument Sample.second_refused 14)
             (Sample.at_argument Sample.second_refused 15)
             (Sample.at_argument Sample.second_refused 18)
             (set_proxies (set_from Sample.new ".") [NewProxy "10.0.0.1" "dns"])).
    + exists (Sample.at_directive Sample.second_refused),
        (Sample.at_argument Sample.second_refused 14).
      split; [reflexivity|]. split; [vm_compute; reflexivity|reflexivity].
    + reflexivity.
    + vm_compute. reflexivity.
    + simpl. lia.
Defined.
